(** * Lyricize: the word-resolution engine of [src/index.ts]

    A shallow embedding of [lyricize], [processWord], [preserveCase] and
    [capitalize], together with the JavaScript string and array primitives
    they call, and of [parseForm] and the filing step of the script that
    builds the dictionary, followed by the properties of the engine and of
    the builder.

    Modelling conventions.
    - A JavaScript string is a [string] of code units below 256, read as
      U+0000 to U+00FF.  The white space of that range is TAB, LF, VT,
      FF, CR, the space and the no-break space U+00A0.  The case mappings
      of the model act on the ASCII letters only; JavaScript also maps
      the accented letters, so a statement that depends on the case
      mapping of a string that the engine does not itself reduce to
      ASCII letters asks for an ASCII string ([asciiOnly]).
    - The dictionary object [data] is used as a map and is modelled as a
      finite map from its own keys to [WordData] records
      ([gmap string WordData]): [data[k]] is the lookup [data !! k],
      [undefined] being [None].  Names that a JavaScript object inherits
      from [Object.prototype] are not part of the map, whereas [data[k]]
      finds them.  The engine looks up words of lowercase letters only,
      and [constructor] is the one inherited name of that kind: on a
      dictionary with an entry of its own under that name
      ([shadowsInherited]) the lookups of the code are the lookups of the
      model.  Without such an entry the code takes the inherited function
      for the entry of [constructor], which has none of the four fields:
      it throws or returns a record without syllables for the tokens that
      reach that name, and such a record is no [WordData].  The
      properties that say what the engine returns for every token or
      every text are therefore stated of dictionaries with that entry;
      the others fix by their hypotheses what each lookup finds, or hold
      whatever the lookups find.
    - Stresses are the integers of the dictionary file.
    - A [TypeError] raised by a property access on [undefined] is the
      [Throw] outcome of the [result] type; [Array.prototype.map] stops at
      the first callback that throws. *)

From Stdlib Require Import ZArith Ascii String List Bool Lia.
From stdpp Require Import gmap strings list fin_maps.

Local Open Scope string_scope.
Local Open Scope list_scope.

(** ** Characters *)

Module Char.

Definition code (c : ascii) : nat := nat_of_ascii c.

Definition isUpperLetter (c : ascii) : bool :=
  (65 <=? code c)%nat && (code c <=? 90)%nat.

Definition isLowerLetter (c : ascii) : bool :=
  (97 <=? code c)%nat && (code c <=? 122)%nat.

(** The character class [[a-zA-Z]]. *)
Definition isLetter (c : ascii) : bool := isLowerLetter c || isUpperLetter c.

Definition isHyphen (c : ascii) : bool := (code c =? 45)%nat.

(** The character class [\s] below 256: TAB, LF, VT, FF, CR, the space
    and the no-break space. *)
Definition isSpace (c : ascii) : bool :=
  (9 <=? code c)%nat && (code c <=? 13)%nat || (code c =? 32)%nat
  || (code c =? 160)%nat.

Definition toLower (c : ascii) : ascii :=
  if isUpperLetter c then ascii_of_nat (code c + 32) else c.

Definition toUpper (c : ascii) : ascii :=
  if isLowerLetter c then ascii_of_nat (code c - 32) else c.

End Char.

(** ** String primitives *)

Module Str.

Fixpoint map (f : ascii → ascii) (s : string) : string :=
  match s with
  | "" => ""
  | String c r => String (f c) (map f r)
  end.

Fixpoint filter (p : ascii → bool) (s : string) : string :=
  match s with
  | "" => ""
  | String c r => if p c then String c (filter p r) else filter p r
  end.

Fixpoint all (p : ascii → bool) (s : string) : bool :=
  match s with
  | "" => true
  | String c r => p c && all p r
  end.

Fixpoint any (p : ascii → bool) (s : string) : bool :=
  match s with
  | "" => false
  | String c r => p c || any p r
  end.

Fixpoint take (n : nat) (s : string) : string :=
  match n, s with
  | S k, String c r => String c (take k r)
  | _, _ => ""
  end.

Fixpoint drop (n : nat) (s : string) : string :=
  match n, s with
  | S k, String _ r => drop k r
  | _, _ => s
  end.

(** [s.toLowerCase()] and [s.toUpperCase()] on ASCII text; a character
    that is no ASCII letter is left as it is. *)
Definition toLowerCase : string → string := map Char.toLower.
Definition toUpperCase : string → string := map Char.toUpper.

(** [!s]: the empty string is the only falsy string. *)
Definition isEmpty (s : string) : bool :=
  match s with "" => true | _ => false end.

(** [s.slice(0, -n)]: the end index is [max (length s - n) 0]; a
    negative zero is zero, so [s.slice(0, -0)] is empty. *)
Definition sliceNeg (s : string) (n : nat) : string :=
  match n with
  | O => ""
  | _ => take (String.length s - n) s
  end.

(** [s.slice(1)]. *)
Definition slice1 (s : string) : string := drop 1 s.

(** [s.endsWith(t)]. *)
Definition endsWith (s t : string) : bool :=
  (String.length t <=? String.length s)%nat
  && String.eqb (drop (String.length s - String.length t) s) t.

(** [s.includes('-')]. *)
Definition includesHyphen (s : string) : bool := any Char.isHyphen s.

(** [s.split('-')]: the pieces between hyphens, empty pieces included;
    the result is never empty. *)
Fixpoint splitHyphen (s : string) : list string :=
  match s with
  | "" => [""]
  | String c r =>
      if Char.isHyphen c then "" :: splitHyphen r
      else match splitHyphen r with
           | t :: ts => String c t :: ts
           | [] => [String c ""]
           end
  end.

(** [s.split(/\s+/)]: the pieces between maximal runs of white space.
    [afterSep] records that the previous character belonged to a
    separator, whose run is still being consumed. *)
Fixpoint splitSpaces (afterSep : bool) (s : string) : list string :=
  match s with
  | "" => [""]
  | String c r =>
      if Char.isSpace c then
        if afterSep then splitSpaces true r else "" :: splitSpaces true r
      else match splitSpaces false r with
           | t :: ts => String c t :: ts
           | [] => [String c ""]
           end
  end.

Definition splitWhitespace (s : string) : list string := splitSpaces false s.

(** [s.match(/^[^a-zA-Z]*/)[0]]: anchored at the start, greedy. *)
Fixpoint matchLeadingNonLetters (s : string) : string :=
  match s with
  | "" => ""
  | String c r =>
      if Char.isLetter c then "" else String c (matchLeadingNonLetters r)
  end.

(** [s.match(/[^a-zA-Z]*$/)[0]]: the matcher tries each start index from
    the left and succeeds at the first one from which only non-letters
    remain up to the end of the string. *)
Fixpoint matchTrailingNonLetters (s : string) : string :=
  if all (λ c, negb (Char.isLetter c)) s then s
  else match s with
       | "" => ""
       | String _ r => matchTrailingNonLetters r
       end.

(** [s.replace(/[^a-zA-Z-]/g, '')]. *)
Definition keepLettersAndHyphens (s : string) : string :=
  filter (λ c, Char.isLetter c || Char.isHyphen c) s.

(** [parts.join('-')]. *)
Definition joinHyphen (parts : list string) : string := String.concat "-" parts.

End Str.

(** ** Outcomes *)

Inductive result (A : Type) : Type :=
| Ok (a : A)
| Throw.
Arguments Ok {A} a.
Arguments Throw {A}.

Definition bind {A B : Type} (r : result A) (k : A → result B) : result B :=
  match r with
  | Ok a => k a
  | Throw => Throw
  end.

Notation "'let!' x ':=' r 'in' k" := (bind r (λ x, k))
  (at level 10, x name, r at level 100, k at level 200).

(** [xs.map(f)] for a callback that may throw. *)
Fixpoint mapResult {A B : Type} (f : A → result B) (xs : list A) : result (list B) :=
  match xs with
  | [] => Ok []
  | x :: rest =>
      let! y := f x in
      let! ys := mapResult f rest in
      Ok (y :: ys)
  end.

(** ** Data model *)

Record WordData : Type := mkWordData {
  syllables : list string;
  hyphenated : string;
  stresses : list Z;
  isKnown : bool
}.

Record SuffixRule : Type := mkSuffixRule {
  suffix : string;
  replace : string;
  syllable : option string
}.

(** The table of [processWord], in its order. *)
Definition suffixes : list SuffixRule :=
  [ mkSuffixRule "s" "" None;
    mkSuffixRule "es" "" (Some "es");
    mkSuffixRule "ed" "" (Some "ed");
    mkSuffixRule "ing" "" (Some "ing");
    mkSuffixRule "ly" "" (Some "ly");
    mkSuffixRule "d" "" None ].

(** ** Case reconciliation *)

(** [str.charAt(0).toUpperCase() + str.slice(1)]. *)
Definition capitalize (str : string) : string :=
  Str.toUpperCase (Str.take 1 str) +:+ Str.slice1 str.

Definition preserveCase (original hyphenated cleanOriginal : string) : string :=
  if String.eqb (Str.toLowerCase original) cleanOriginal then
    let isUpper := String.eqb original (Str.toUpperCase original) in
    let isCapitalized :=
      String.eqb original (capitalize (Str.toLowerCase original)) in
    if isUpper then Str.toUpperCase hyphenated
    else if isCapitalized then capitalize hyphenated
    else hyphenated
  else hyphenated.

(** ** The resolver *)

(** [xs[xs.length - 1]], [undefined] on the empty array. *)
Definition lastElement (xs : list string) : option string := last xs.

(** [xs.slice(0, -1)]. *)
Definition allButLast (xs : list string) : list string := removelast xs.

(** [v + 's'] where [v] may be [undefined], which prints as its name. *)
Definition concatMaybe (v : option string) (t : string) : string :=
  match v with
  | Some s => s +:+ t
  | None => "undefined" +:+ t
  end.

Section Engine.

(** The dictionary loaded from [dictionary.json]. *)
Variable data : gmap string WordData.

(** The body of the [if (wordData)] inside the loop over [suffixes]:
    the entry found for the base is rebuilt for the suffixed word. *)
Definition rebuild (rule : SuffixRule) (wordData : WordData)
    (original cleanWord : string) : result WordData :=
  if String.eqb (suffix rule) "s" then
    let lastSyllable := lastElement (syllables wordData) in
    let previousSyllables := allButLast (syllables wordData) in
    let newSyllables := previousSyllables ++ [concatMaybe lastSyllable "s"] in
    let newHyphenated := hyphenated wordData +:+ "s" in
    Ok (mkWordData newSyllables
          (preserveCase original newHyphenated cleanWord)
          (stresses wordData) (isKnown wordData))
  else if String.eqb (suffix rule) "d" && Str.endsWith cleanWord "ed" then
    let newHyphenated := Str.sliceNeg (hyphenated wordData) 1 +:+ "-ed" in
    match lastElement (syllables wordData) with
    | None => Throw
    | Some lastSyllable =>
        let previousSyllables := allButLast (syllables wordData) in
        let newSyllables :=
          previousSyllables ++ [Str.sliceNeg lastSyllable 1; "ed"] in
        let newStresses := stresses wordData ++ [0%Z] in
        Ok (mkWordData newSyllables
              (preserveCase original newHyphenated cleanWord)
              newStresses (isKnown wordData))
    end
  else
    match syllable rule with
    | Some syl =>
        if Str.isEmpty syl then
          Ok (mkWordData (syllables wordData)
                (preserveCase original (hyphenated wordData) cleanWord)
                (stresses wordData) (isKnown wordData))
        else
          let newSyllables := syllables wordData ++ [syl] in
          let newHyphenated := Str.joinHyphen (syllables wordData ++ [syl]) in
          let newStresses := stresses wordData ++ [0%Z] in
          Ok (mkWordData newSyllables
                (preserveCase original newHyphenated cleanWord)
                newStresses (isKnown wordData))
    | None =>
        Ok (mkWordData (syllables wordData)
              (preserveCase original (hyphenated wordData) cleanWord)
              (stresses wordData) (isKnown wordData))
    end.

(** The [for ... of suffixes] loop: [None] when it ends with
    [wordData] still undefined. *)
Fixpoint trySuffixes (rules : list SuffixRule) (original cleanWord : string)
    : result (option WordData) :=
  match rules with
  | [] => Ok None
  | rule :: rest =>
      if Str.endsWith cleanWord (suffix rule) then
        let base :=
          Str.sliceNeg cleanWord (String.length (suffix rule)) +:+ replace rule in
        match data !! base with
        | Some wordData =>
            let! rebuilt := rebuild rule wordData original cleanWord in
            Ok (Some rebuilt)
        | None => trySuffixes rest original cleanWord
        end
      else trySuffixes rest original cleanWord
  end.

(** [data[cleanWord]], then the suffix table when that is undefined. *)
Definition findWordData (original cleanWord : string) : result (option WordData) :=
  match data !! cleanWord with
  | Some wordData => Ok (Some wordData)
  | None => trySuffixes suffixes original cleanWord
  end.

Definition processWord (original prefix suffix : string) : result WordData :=
  let cleanWord := Str.toLowerCase original in
  if Str.isEmpty cleanWord then
    Ok (mkWordData [prefix +:+ original +:+ suffix]
          (prefix +:+ original +:+ suffix) [0%Z] false)
  else
    let! found := findWordData original cleanWord in
    match found with
    | Some wordData =>
        Ok (mkWordData (syllables wordData)
              (prefix +:+ preserveCase original (hyphenated wordData) cleanWord
               +:+ suffix)
              (stresses wordData) true)
    | None =>
        Ok (mkWordData [original] (prefix +:+ original +:+ suffix) [0%Z] false)
    end.

(** The callback that [lyricize] maps over the tokens. *)
Definition lyricizeWord (originalWord : string) : result WordData :=
  if Str.isEmpty originalWord then Ok (mkWordData [] "" [] false)
  else
    let prefix := Str.matchLeadingNonLetters originalWord in
    let suffix := Str.matchTrailingNonLetters originalWord in
    let cleanWord := Str.keepLettersAndHyphens originalWord in
    if Str.isEmpty cleanWord then
      Ok (mkWordData [originalWord] originalWord [0%Z] false)
    else if Str.includesHyphen cleanWord then
      let parts := List.filter (λ part, negb (Str.isEmpty part))
                     (Str.splitHyphen cleanWord) in
      let! partResults := mapResult (λ part, processWord part "" "") parts in
      let combinedSyllables := List.concat (List.map syllables partResults) in
      let combinedHyphenated := Str.joinHyphen (List.map hyphenated partResults) in
      let combinedStresses := List.concat (List.map stresses partResults) in
      let isKnown := forallb isKnown partResults in
      Ok (mkWordData combinedSyllables
            (prefix +:+ preserveCase originalWord combinedHyphenated cleanWord
             +:+ suffix)
            combinedStresses isKnown)
    else processWord cleanWord prefix suffix.

Definition lyricize (lyrics : string) : result (list WordData) :=
  mapResult lyricizeWord (Str.splitWhitespace lyrics).

End Engine.

(** ** A small dictionary for the worked examples *)

Definition entry (syls : list string) (strs : list Z) : WordData :=
  mkWordData syls (Str.joinHyphen syls) strs true.

Definition sampleData : gmap string WordData :=
  list_to_map
    [ ("hello", entry ["hel"; "lo"] [0; 2]%Z);
      ("song", entry ["song"] [0]%Z);
      ("sing", entry ["sing"] [2]%Z);
      ("singe", entry ["singe"] [0]%Z);
      ("translate", entry ["trans"; "late"] [0; 0]%Z);
      ("bright", entry ["bright"] [2]%Z);
      ("life", entry ["life"] [0]%Z);
      ("renew", entry ["re"; "new"] [0; 2]%Z);
      ("pre", entry ["pre"] [0]%Z);
      ("post", entry ["post"] [0]%Z) ].

(** The same dictionary with an entry under ["constructor"]. *)
Definition safeData : gmap string WordData :=
  <["constructor" := entry ["con"; "struct"; "or"] [0; 2; 0]%Z]> sampleData.

(** ** Vocabulary of the properties *)

(** The dictionary has an entry of its own under the one name that the
    engine can look up and that every object inherits: the lookups of the
    code then find own entries only. *)
Definition shadowsInherited (data : gmap string WordData) : Prop :=
  is_Some (data !! "constructor").

(** Every entry has at least one syllable. *)
Definition dictNonEmpty (data : gmap string WordData) : Prop :=
  map_Forall (λ _ e, syllables e ≠ []) data.

(** Every entry has as many stresses as syllables. *)
Definition dictBalanced (data : gmap string WordData) : Prop :=
  map_Forall (λ _ e, length (syllables e) = length (stresses e)) data.

(** A record has as many stresses as syllables. *)
Definition balanced (r : WordData) : Prop :=
  length (syllables r) = length (stresses r).

(** The record of an empty token. *)
Definition emptyRecord : WordData := mkWordData [] "" [] false.

(** The key that a rule looks up for a word. *)
Definition baseOf (rule : SuffixRule) (cleanWord : string) : string :=
  Str.sliceNeg cleanWord (String.length (suffix rule)) +:+ replace rule.

(** The rule applies: its suffix ends the word and its base is an entry. *)
Definition applies (data : gmap string WordData) (rule : SuffixRule)
    (cleanWord : string) : bool :=
  Str.endsWith cleanWord (suffix rule)
  && bool_decide (is_Some (data !! baseOf rule cleanWord)).

(** The parts of a compound: [cleanWord.split('-').filter(part => part)]. *)
Definition partsOf (cleanWord : string) : list string :=
  List.filter (λ part, negb (Str.isEmpty part)) (Str.splitHyphen cleanWord).

(** The word is a key, or some rule of the table strips an ending of the
    word and leaves a key. *)
Definition dictionaryHit (data : gmap string WordData) (cleanWord : string) : Prop :=
  is_Some (data !! cleanWord)
  ∨ Exists (λ rule, Str.endsWith cleanWord (suffix rule) = true
                    ∧ is_Some (data !! baseOf rule cleanWord)) suffixes.

(** What [processWord] returns once the entry to use is settled. *)
Definition decorate (original pre sfx : string) (wordData : WordData) : WordData :=
  mkWordData (syllables wordData)
    (pre +:+ preserveCase original (hyphenated wordData) (Str.toLowerCase original) +:+ sfx)
    (stresses wordData) true.

(** The character class [[^a-zA-Z]]. *)
Definition nonLetter (c : ascii) : bool := negb (Char.isLetter c).

(** An entry without syllables, under the keys used to reach it. *)
Definition hollowEntry : WordData := mkWordData [] "" [] true.

Definition hollowData : gmap string WordData :=
  list_to_map [("x", hollowEntry); ("ye", hollowEntry)].

(** ** The dictionary builder

    [parseForm] of the build script turns a pronunciation form of the
    word list into a dictionary entry.  The accented letters that it
    rewrites are the code units 233 (e acute), 235 (e diaeresis) and 246
    (o diaeresis); the markers are the asterisk (42), the double quote
    (34), the backquote (96) and the hyphen (45). *)

Module Form.

(** The character class of the pronunciation markers. *)
Definition isMarker (c : ascii) : bool :=
  (Char.code c =? 42)%nat || (Char.code c =? 34)%nat
  || (Char.code c =? 96)%nat || (Char.code c =? 45)%nat.

(** The callback of the first [replace]: o diaeresis becomes o, the two
    accented e become e. *)
Definition normalizeAccent (c : ascii) : ascii :=
  if (Char.code c =? 246)%nat then "o"%char
  else if (Char.code c =? 235)%nat || (Char.code c =? 233)%nat then "e"%char
  else c.

(** [s.split(re)] for a class of separators of one character each: the
    pieces between separators, empty pieces included. *)
Fixpoint splitOn (sep : ascii → bool) (s : string) : list string :=
  match s with
  | "" => [""]
  | String c r =>
      if sep c then "" :: splitOn sep r
      else match splitOn sep r with
           | t :: ts => String c t :: ts
           | [] => [String c ""]
           end
  end.

(** The stress that a marker encodes. *)
Definition stressOf (mark : ascii) : Z :=
  if (Char.code mark =? 34)%nat then 2%Z
  else if (Char.code mark =? 96)%nat then 1%Z
  else 0%Z.

(** [while (stresses.length < n) stresses.push(0)]. *)
Definition padStresses (stresses : list Z) (n : nat) : list Z :=
  stresses ++ repeat 0%Z (n - length stresses).

Definition parseForm (form : string) (isKnown : bool) : WordData :=
  if negb (Str.any isMarker form) then
    let normalizedForm :=
      Str.filter (λ c, Char.isLetter c || Char.isHyphen c)
        (Str.map normalizeAccent form) in
    mkWordData [Str.toLowerCase normalizedForm] (Str.toLowerCase normalizedForm)
      [0%Z] false
  else
    let normalizedForm :=
      Str.filter (λ c, Char.isLetter c || isMarker c)
        (Str.map normalizeAccent form) in
    let syllables :=
      List.filter (λ piece, negb (Str.isEmpty piece))
        (splitOn isMarker (Str.toLowerCase normalizedForm)) in
    let marks := list_ascii_of_string (Str.filter isMarker normalizedForm) in
    let stresses := padStresses (List.map stressOf marks) (length syllables) in
    let hyphenated := Str.joinHyphen syllables in
    mkWordData syllables hyphenated stresses true.

(** The step of [main] that files an entry: under the headword, and under
    the headword without its hyphens when that is another key. *)
Definition storeEntry (word : string) (wordData : WordData)
    (data : gmap string WordData) : gmap string WordData :=
  let data1 := <[word := wordData]> data in
  let unhyphenated := Str.filter (λ c, negb (Char.isHyphen c)) word in
  if String.eqb unhyphenated word then data1
  else <[unhyphenated := wordData]> data1.

End Form.

(** ** Vocabulary of the further properties *)

(** An outcome seen through a projection of its record. *)
Definition resultMap {A B : Type} (f : A → B) (r : result A) : result B :=
  match r with
  | Ok a => Ok (f a)
  | Throw => Throw
  end.

(** What a record says of the word, apart from its rendering. *)
Definition shape (r : WordData) : list string * list Z * bool :=
  (syllables r, stresses r, isKnown r).

(** The same, with the syllables read without their case. *)
Definition shapeLower (r : WordData) : list string * list Z * bool :=
  (List.map Str.toLowerCase (syllables r), stresses r, isKnown r).

(** The syllables of a record when it is known. *)
Definition knownSyllables (r : WordData) : option (list string) :=
  if isKnown r then Some (syllables r) else None.

(** What a record says of the word whatever the case of the token. *)
Definition caseView (r : WordData)
    : (list string * list Z * bool) * option (list string) :=
  (shapeLower r, knownSyllables r).

(** A string of ASCII characters, on which the case mappings of the
    model are those of JavaScript. *)
Definition asciiOnly (s : string) : bool :=
  Str.all (λ c, (Char.code c <? 128)%nat) s.

(** The letters that a list of syllables spells. *)
Definition spell (syls : list string) : string :=
  fold_right String.append "" syls.

(** A key that the engine can look up: lowercase letters only. *)
Definition lowerKey (k : string) : bool := Str.all Char.isLowerLetter k.

(** A dictionary of entries made by [parseForm], from forms with their
    markers: an asterisk, a double quote (primary stress) and a backquote
    (secondary stress). *)
Definition builtData : gmap string WordData :=
  list_to_map
    [ ("hello", Form.parseForm ("Hel*lo" +:+ String "034" "") true);
      ("godlike", Form.parseForm ("God" +:+ String "034" "like`") true);
      ("constructor",
       Form.parseForm ("Con*struct" +:+ String "034" "or*") true);
      ("song", Form.parseForm "song" false) ].

(** ** Facts about the string primitives *)

Lemma str_app_cons c s t : String c s +:+ t = String c (s +:+ t).
Proof. reflexivity. Qed.

Lemma str_app_nil_l s : "" +:+ s = s.
Proof. reflexivity. Qed.

Lemma str_app_nil_r s : s +:+ "" = s.
Proof. induction s as [|c s IH]; [reflexivity|]. by rewrite str_app_cons, IH. Qed.

Lemma str_app_assoc s t u : (s +:+ t) +:+ u = s +:+ (t +:+ u).
Proof. induction s as [|c s IH]; [reflexivity|]. by rewrite !str_app_cons, IH. Qed.

Lemma str_length_app s t :
  String.length (s +:+ t) = (String.length s + String.length t)%nat.
Proof. induction s as [|c s IH]; [reflexivity|]. rewrite str_app_cons. simpl. lia. Qed.

Lemma str_isEmpty_true s : Str.isEmpty s = true ↔ s = "".
Proof. destruct s; simpl; split; congruence. Qed.

Lemma str_isEmpty_false s : Str.isEmpty s = false ↔ s ≠ "".
Proof. destruct s; simpl; split; congruence. Qed.

Lemma str_map_eq_nil f s : Str.map f s = "" ↔ s = "".
Proof. destruct s; simpl; split; congruence. Qed.

Lemma str_drop_app_length s t : Str.drop (String.length s) (s +:+ t) = t.
Proof. induction s as [|c s IH]; [by destruct t|]. rewrite str_app_cons. simpl. by rewrite IH. Qed.

Lemma str_take_drop n s : Str.take n s +:+ Str.drop n s = s.
Proof.
  revert s; induction n as [|n IH]; intros [|c s]; try reflexivity.
  simpl. by rewrite str_app_cons, IH.
Qed.

(** [endsWith] holds exactly when the string is some text followed by
    the ending. *)
Lemma str_endsWith_iff s t : Str.endsWith s t = true ↔ ∃ p, s = p +:+ t.
Proof.
  unfold Str.endsWith. rewrite andb_true_iff, Nat.leb_le, String.eqb_eq. split.
  - intros [Hlen Hdrop].
    exists (Str.take (String.length s - String.length t) s).
    rewrite <- Hdrop at 2. by rewrite str_take_drop.
  - intros [p ->]. rewrite str_length_app. split; [lia|].
    replace (String.length p + String.length t - String.length t)%nat
      with (String.length p) by lia.
    apply str_drop_app_length.
Qed.

Lemma str_app_snoc_inj p q a b :
  p +:+ String a "" = q +:+ String b "" → p = q ∧ a = b.
Proof.
  revert q; induction p as [|c p IH]; intros [|c' q] H.
  - rewrite !str_app_nil_l in H. by injection H.
  - rewrite str_app_nil_l, str_app_cons in H. injection H as _ H. by destruct q.
  - rewrite str_app_nil_l, str_app_cons in H. injection H as _ H. by destruct p.
  - rewrite !str_app_cons in H. injection H as -> H.
    destruct (IH _ H) as [-> ->]. done.
Qed.

(** Two endings that finish on different characters exclude each other. *)
Lemma str_endsWith_last_differs s t a u b :
  a ≠ b →
  Str.endsWith s (t +:+ String a "") = true →
  Str.endsWith s (u +:+ String b "") = false.
Proof.
  intros Hab [p ->]%str_endsWith_iff.
  destruct (Str.endsWith _ (u +:+ _)) eqn:E; [|done].
  apply str_endsWith_iff in E as [q E].
  rewrite <- !str_app_assoc in E. apply str_app_snoc_inj in E as [_ ?]. done.
Qed.

Lemma str_endsWith_app_r s t u : Str.endsWith s (t +:+ u) = true → Str.endsWith s u = true.
Proof.
  intros [p ->]%str_endsWith_iff. apply str_endsWith_iff. exists (p +:+ t).
  by rewrite str_app_assoc.
Qed.

Lemma str_toUpper_idemp c : Char.toUpper (Char.toUpper c) = Char.toUpper c.
Proof. by destruct c as [[] [] [] [] [] [] [] []]. Qed.

Lemma str_toUpperCase_idemp s : Str.toUpperCase (Str.toUpperCase s) = Str.toUpperCase s.
Proof.
  unfold Str.toUpperCase. induction s as [|c s IH]; [reflexivity|].
  simpl. by rewrite str_toUpper_idemp, IH.
Qed.

Lemma capitalize_cons c r : capitalize (String c r) = String (Char.toUpper c) r.
Proof. reflexivity. Qed.

Lemma capitalize_nil : capitalize "" = "".
Proof. reflexivity. Qed.

Lemma capitalize_idemp s : capitalize (capitalize s) = capitalize s.
Proof.
  destruct s as [|c r]; [reflexivity|].
  by rewrite !capitalize_cons, str_toUpper_idemp.
Qed.

(** Reconciling twice against the same original is reconciling once; the
    suffix path of [processWord] does so. *)
Lemma preserveCase_idemp original h clean :
  preserveCase original (preserveCase original h clean) clean
  = preserveCase original h clean.
Proof.
  unfold preserveCase.
  destruct (String.eqb (Str.toLowerCase original) clean); [|done].
  destruct (String.eqb original (Str.toUpperCase original)).
  - apply str_toUpperCase_idemp.
  - destruct (String.eqb original (capitalize (Str.toLowerCase original))); [|done].
    apply capitalize_idemp.
Qed.

(** ** Facts about outcomes *)

Lemma bind_Ok {A B} (r : result A) (k : A → result B) b :
  bind r k = Ok b ↔ ∃ a, r = Ok a ∧ k a = Ok b.
Proof.
  destruct r as [a|]; simpl; split.
  - intros H. by exists a.
  - by intros (a' & [= ->] & H).
  - done.
  - by intros (a' & [=] & _).
Qed.

Lemma mapResult_Forall2 {A B} (f : A → result B) xs ys :
  mapResult f xs = Ok ys ↔ Forall2 (λ x y, f x = Ok y) xs ys.
Proof.
  revert ys; induction xs as [|x xs IH]; intros ys; simpl.
  - split; [intros [= <-]; constructor | by inversion 1].
  - rewrite bind_Ok. split.
    + intros (y & Hy & (ys' & Hys & [= <-])%bind_Ok).
      constructor; [done | by apply IH].
    + inversion 1 as [|? y ? ys' Hy Hys]; subst.
      exists y. split; [done|]. apply bind_Ok. exists ys'.
      split; [by apply IH | done].
Qed.

Lemma mapResult_total {A B} (f : A → result B) xs :
  Forall (λ x, ∃ y, f x = Ok y) xs → ∃ ys, mapResult f xs = Ok ys.
Proof.
  induction 1 as [|x xs [y Hy] _ [ys Hys]]; simpl.
  - by exists [].
  - exists (y :: ys). by rewrite Hy, Hys.
Qed.

Lemma lastElement_is_Some (xs : list string) : xs ≠ [] → is_Some (lastElement xs).
Proof.
  intros H. unfold lastElement. destruct (last xs) eqn:E; [by eexists|].
  by apply last_None in E.
Qed.

Lemma length_allButLast (xs : list string) :
  xs ≠ [] → S (length (allButLast xs)) = length xs.
Proof.
  intros H. unfold allButLast.
  destruct (exists_last H) as (ys & y & ->).
  rewrite removelast_last, length_app. simpl. lia.
Qed.

Section EngineFacts.

Variable data : gmap string WordData.

(** *** The loop body *)

Lemma rebuild_total rule e original cleanWord :
  syllables e ≠ [] → ∃ r, rebuild rule e original cleanWord = Ok r.
Proof.
  intros [l Hl]%lastElement_is_Some. unfold rebuild. rewrite Hl.
  repeat case_match; eauto.
Qed.

Lemma rebuild_balanced rule e original cleanWord r :
  syllables e ≠ [] → balanced e →
  rebuild rule e original cleanWord = Ok r → balanced r.
Proof.
  intros Hne Hbal. pose proof (length_allButLast _ Hne) as Hlen.
  unfold balanced in *. unfold rebuild.
  repeat case_match; intros [= <-]; simpl;
    rewrite ?length_app; simpl; lia.
Qed.

(** *** The loop over the suffix table *)

Lemma trySuffixes_skip rule rest original cleanWord :
  applies data rule cleanWord = false →
  trySuffixes data (rule :: rest) original cleanWord
  = trySuffixes data rest original cleanWord.
Proof.
  unfold applies. simpl. fold (baseOf rule cleanWord).
  destruct (Str.endsWith _ _); [|done]. simpl.
  rewrite bool_decide_eq_false. intros H.
  destruct (data !! _) eqn:E; [|done]. destruct H. by eexists.
Qed.

Lemma trySuffixes_hit rule rest original cleanWord e :
  Str.endsWith cleanWord (suffix rule) = true →
  data !! baseOf rule cleanWord = Some e →
  trySuffixes data (rule :: rest) original cleanWord
  = (let! rebuilt := rebuild rule e original cleanWord in Ok (Some rebuilt)).
Proof. intros Hends Hbase. simpl. fold (baseOf rule cleanWord). by rewrite Hends, Hbase. Qed.

Lemma trySuffixes_none rules original cleanWord :
  Forall (λ rule, applies data rule cleanWord = false) rules →
  trySuffixes data rules original cleanWord = Ok None.
Proof.
  induction 1 as [|rule rules Hrule _ IH]; [done|].
  by rewrite trySuffixes_skip.
Qed.

Lemma trySuffixes_total rules original cleanWord :
  dictNonEmpty data → ∃ o, trySuffixes data rules original cleanWord = Ok o.
Proof.
  intros Hne. induction rules as [|rule rules IH]; [by eexists|].
  destruct (applies data rule cleanWord) eqn:E.
  - apply andb_true_iff in E as [Hends [e He]%bool_decide_eq_true].
    rewrite (trySuffixes_hit _ _ _ _ e) by done.
    destruct (rebuild_total rule e original cleanWord) as [r ->]; [by eapply Hne|].
    by eexists.
  - by rewrite trySuffixes_skip.
Qed.

Lemma trySuffixes_Some rules original cleanWord r :
  trySuffixes data rules original cleanWord = Ok (Some r) →
  ∃ rule e, rule ∈ rules ∧ Str.endsWith cleanWord (suffix rule) = true
            ∧ data !! baseOf rule cleanWord = Some e
            ∧ rebuild rule e original cleanWord = Ok r.
Proof.
  induction rules as [|rule rules IH]; [done|].
  destruct (applies data rule cleanWord) eqn:E.
  - apply andb_true_iff in E as [Hends [e He]%bool_decide_eq_true].
    rewrite (trySuffixes_hit _ _ _ _ e) by done.
    intros (r' & Hr' & [= <-])%bind_Ok.
    exists rule, e. split; [by left | done].
  - rewrite trySuffixes_skip by done. intros (rule' & e & ? & ?)%IH.
    exists rule', e. split; [by right | done].
Qed.

(** *** [processWord] *)

Lemma findWordData_total original cleanWord :
  dictNonEmpty data → ∃ o, findWordData data original cleanWord = Ok o.
Proof.
  intros Hne. unfold findWordData. destruct (data !! cleanWord); [by eexists|].
  by apply trySuffixes_total.
Qed.

Lemma findWordData_balanced original cleanWord r :
  dictNonEmpty data → dictBalanced data →
  findWordData data original cleanWord = Ok (Some r) → balanced r.
Proof.
  intros Hne Hbal. unfold findWordData. destruct (data !! cleanWord) as [e|] eqn:E.
  - intros [= <-]. by eapply Hbal.
  - intros (rule & e & _ & _ & He & Hr)%trySuffixes_Some.
    eapply rebuild_balanced; [| |done]; [by eapply Hne | by eapply Hbal].
Qed.

Lemma processWord_total original prefix suffix :
  dictNonEmpty data → ∃ r, processWord data original prefix suffix = Ok r.
Proof.
  intros Hne. unfold processWord. case_match; [by eexists|].
  destruct (findWordData_total original (Str.toLowerCase original) Hne) as [[e|] ->];
    by eexists.
Qed.

Lemma processWord_balanced original prefix suffix r :
  dictNonEmpty data → dictBalanced data →
  processWord data original prefix suffix = Ok r → balanced r.
Proof.
  intros Hne Hbal. unfold processWord. case_match; [by intros [= <-]|].
  intros ([e|] & He & [= <-])%bind_Ok; [|done].
  by apply (findWordData_balanced _ _ _ Hne Hbal) in He.
Qed.

(** *** The callback of [lyricize] *)

Lemma parts_total parts :
  dictNonEmpty data →
  ∃ partResults, mapResult (λ part, processWord data part "" "") parts = Ok partResults.
Proof.
  intros Hne. apply mapResult_total, Forall_forall. intros part _.
  by apply processWord_total.
Qed.

Lemma lyricizeWord_total originalWord :
  dictNonEmpty data → ∃ r, lyricizeWord data originalWord = Ok r.
Proof.
  intros Hne. unfold lyricizeWord. repeat case_match; try by eexists.
  - destruct (parts_total (partsOf (Str.keepLettersAndHyphens originalWord)) Hne)
      as [rs Hrs]. unfold partsOf in Hrs. rewrite Hrs. by eexists.
  - by apply processWord_total.
Qed.

Lemma concat_balanced (rs : list WordData) :
  Forall balanced rs →
  length (List.concat (List.map syllables rs))
  = length (List.concat (List.map stresses rs)).
Proof.
  induction 1 as [|r rs Hr _ IH]; [done|].
  simpl. rewrite !length_app, IH. unfold balanced in Hr. by rewrite Hr.
Qed.

Lemma lyricizeWord_balanced originalWord r :
  dictNonEmpty data → dictBalanced data →
  lyricizeWord data originalWord = Ok r → balanced r.
Proof.
  intros Hne Hbal. unfold lyricizeWord. repeat case_match; try by intros [= <-].
  - intros (rs & Hrs & [= <-])%bind_Ok. unfold balanced. simpl.
    apply concat_balanced. apply mapResult_Forall2 in Hrs.
    induction Hrs as [|part p parts ps Hp _ IH]; constructor; [|done].
    by eapply processWord_balanced.
  - by apply processWord_balanced.
Qed.

End EngineFacts.

(** ** Dictionaries given as association lists *)

Lemma dictNonEmpty_list_to_map (l : list (string * WordData)) :
  Forall (λ kv, syllables kv.2 ≠ []) l → dictNonEmpty (list_to_map l).
Proof.
  intros Hl k e Hk%elem_of_list_to_map_2.
  by apply (proj1 (Forall_forall _ _) Hl (k, e)).
Qed.

Lemma dictBalanced_list_to_map (l : list (string * WordData)) :
  Forall (λ kv, balanced kv.2) l → dictBalanced (list_to_map l).
Proof.
  intros Hl k e Hk%elem_of_list_to_map_2.
  by apply (proj1 (Forall_forall _ _) Hl (k, e)).
Qed.

Lemma sampleData_nonEmpty : dictNonEmpty sampleData.
Proof. apply dictNonEmpty_list_to_map. repeat constructor; done. Qed.

Lemma sampleData_balanced : dictBalanced sampleData.
Proof. apply dictBalanced_list_to_map. repeat constructor; done. Qed.

Lemma safeData_shadows : shadowsInherited safeData.
Proof. eexists. apply lookup_insert_eq. Qed.

Lemma safeData_nonEmpty : dictNonEmpty safeData.
Proof. apply map_Forall_insert_2; [done | exact sampleData_nonEmpty]. Qed.

Lemma safeData_balanced : dictBalanced safeData.
Proof. apply map_Forall_insert_2; [done | exact sampleData_balanced]. Qed.

Lemma hollowData_balanced : dictBalanced hollowData.
Proof. apply dictBalanced_list_to_map. repeat constructor; done. Qed.

Lemma applies_false data rule cleanWord :
  applies data rule cleanWord = false
  ↔ (Str.endsWith cleanWord (suffix rule) = true → data !! baseOf rule cleanWord = None).
Proof.
  unfold applies. destruct (Str.endsWith _ _); simpl.
  - rewrite bool_decide_eq_false, <- eq_None_not_Some. naive_solver.
  - naive_solver.
Qed.

(** Settles, for concrete words, that no rule of a table applies: each
    ending is either absent from the word or leads to no entry. *)
Ltac no_rule_applies :=
  unfold suffixes;
  repeat (apply Forall_cons_2;
          [ let H := fresh in
            intros H; vm_compute in H;
            first [ discriminate H | vm_compute; reflexivity ] | ]);
  apply Forall_nil_2.

(** The fallback of [processWord]: a non-empty word that is no key and
    that no suffix rule reduces to a key. *)
Lemma processWord_fallback (data : gmap string WordData) original pre sfx :
  original ≠ "" →
  data !! Str.toLowerCase original = None →
  Forall (λ rule, Str.endsWith (Str.toLowerCase original) (suffix rule) = true →
                  data !! baseOf rule (Str.toLowerCase original) = None) suffixes →
  processWord data original pre sfx
  = Ok (mkWordData [original] (pre +:+ original +:+ sfx) [0%Z] false).
Proof.
  intros Hne Hkey Hrules. unfold processWord.
  destruct (Str.isEmpty (Str.toLowerCase original)) eqn:E.
  { apply str_isEmpty_true, str_map_eq_nil in E. done. }
  unfold findWordData. rewrite Hkey, trySuffixes_none; [done|].
  eapply Forall_impl; [exact Hrules|]. intros rule H. by apply applies_false.
Qed.

(** *** Splitting on white space *)

(** No token contains a white-space character. *)
Lemma splitSpaces_spaceless afterSep s :
  Forall (λ tok, Str.any Char.isSpace tok = false) (Str.splitSpaces afterSep s).
Proof.
  revert afterSep; induction s as [|c s IH]; intros afterSep; simpl.
  - by repeat constructor.
  - destruct (Char.isSpace c) eqn:Hc.
    + destruct afterSep; [apply IH | constructor; [done | apply IH]].
    + specialize (IH false).
      destruct (Str.splitSpaces false s) as [|t ts]; [by repeat constructor; simpl; rewrite Hc|].
      inversion IH; subst. constructor; [|done]. simpl. by rewrite Hc.
Qed.

(** A string without white space is its own single token. *)
Lemma splitWhitespace_word s :
  Str.any Char.isSpace s = false → Str.splitWhitespace s = [s].
Proof.
  unfold Str.splitWhitespace. induction s as [|c s IH]; [done|]. simpl.
  intros [Hc Hs]%orb_false_iff. by rewrite Hc, IH.
Qed.

(** A token ends at a run of white space, the whole of which separates
    it from the tokens of the rest. *)
Lemma splitWhitespace_run a ws b :
  Str.any Char.isSpace a = false →
  ws ≠ "" → Str.all Char.isSpace ws = true →
  Str.all Char.isSpace (Str.take 1 b) = false ∨ b = "" →
  Str.splitWhitespace (a +:+ ws +:+ b) = a :: Str.splitWhitespace b.
Proof.
  unfold Str.splitWhitespace. intros Ha Hws Hall Hb.
  assert (Str.splitSpaces true b = Str.splitSpaces false b) as Hflag.
  { destruct Hb as [Hb| ->]; [|done]. destruct b as [|c b]; [done|].
    simpl in *. by destruct (Char.isSpace c). }
  assert (∀ w, Str.all Char.isSpace w = true →
               Str.splitSpaces true (w +:+ b) = Str.splitSpaces false b) as Hskip.
  { induction w as [|c w IH]; [done|]. intros Hw. simpl in Hw.
    apply andb_true_iff in Hw as [Hc Hw].
    rewrite ?str_app_cons. simpl. rewrite Hc. by apply IH. }
  induction a as [|c a IH].
  - destruct ws as [|c ws]; [done|]. simpl in Hall.
    apply andb_true_iff in Hall as [Hc Hw].
    rewrite str_app_nil_l, ?str_app_cons. simpl. rewrite Hc.
    by rewrite Hskip.
  - simpl in Ha. apply orb_false_iff in Ha as [Hc Ha].
    rewrite ?str_app_cons. simpl. rewrite Hc, IH by done. done.
Qed.

(** *** Dictionary hits *)

Lemma trySuffixes_None_inv (data : gmap string WordData) rules original cleanWord :
  trySuffixes data rules original cleanWord = Ok None →
  Forall (λ rule, applies data rule cleanWord = false) rules.
Proof.
  induction rules as [|rule rules IH]; [constructor|].
  destruct (applies data rule cleanWord) eqn:E.
  - apply andb_true_iff in E as [Hends [e He]%bool_decide_eq_true].
    rewrite (trySuffixes_hit _ _ _ _ _ e) by done.
    by intros (r & _ & [=])%bind_Ok.
  - rewrite trySuffixes_skip by done. intros H. constructor; [done | by apply IH].
Qed.

Lemma findWordData_hit (data : gmap string WordData) original cleanWord r :
  findWordData data original cleanWord = Ok (Some r) → dictionaryHit data cleanWord.
Proof.
  unfold findWordData, dictionaryHit. destruct (data !! cleanWord) eqn:E.
  - intros _. left. by eexists.
  - intros (rule & e & Hin & Hends & He & _)%trySuffixes_Some. right.
    apply Exists_exists. exists rule. split; [done|]. split; [done | by eexists].
Qed.

Lemma findWordData_miss (data : gmap string WordData) original cleanWord :
  findWordData data original cleanWord = Ok None → ¬ dictionaryHit data cleanWord.
Proof.
  unfold findWordData, dictionaryHit. destruct (data !! cleanWord) eqn:E; [done|].
  intros Hnone%trySuffixes_None_inv [[e He]|Hex]; [done|].
  apply Exists_exists in Hex as (rule & Hin & Hends & Hbase).
  apply (proj1 (Forall_forall _ _) Hnone) in Hin.
  apply applies_false in Hin; [|done]. rewrite Hin in Hbase. by destruct Hbase.
Qed.

Lemma processWord_unfold (data : gmap string WordData) original pre sfx :
  original ≠ "" →
  processWord data original pre sfx
  = (let! found := findWordData data original (Str.toLowerCase original) in
     Ok (match found with
         | Some wordData => decorate original pre sfx wordData
         | None => mkWordData [original] (pre +:+ original +:+ sfx) [0%Z] false
         end)).
Proof.
  intros Hne. unfold processWord.
  destruct (Str.isEmpty (Str.toLowerCase original)) eqn:E.
  { apply str_isEmpty_true, str_map_eq_nil in E. done. }
  destruct (findWordData _ _ _) as [[e|]|]; done.
Qed.

Lemma processWord_isKnown (data : gmap string WordData) original pre sfx r :
  original ≠ "" →
  processWord data original pre sfx = Ok r →
  (isKnown r = true ↔ dictionaryHit data (Str.toLowerCase original)).
Proof.
  intros Horig. rewrite processWord_unfold by done.
  intros ([e|] & He & [= <-])%bind_Ok; simpl.
  - split; [intros _; by eapply findWordData_hit | done].
  - split; [done|]. intros Hhit. by apply findWordData_miss in He.
Qed.

Lemma partsOf_nonempty cleanWord : Forall (λ part, part ≠ "") (partsOf cleanWord).
Proof.
  unfold partsOf. apply Forall_forall. intros part Hin%list_elem_of_In.
  apply filter_In in Hin as [_ Hp]. by apply negb_true_iff, str_isEmpty_false in Hp.
Qed.

(** *** The order of the suffix rules *)

Lemma trySuffixes_first (data : gmap string WordData) earlier rule later original cleanWord e :
  Forall (λ r, Str.endsWith cleanWord (suffix r) = true →
               data !! baseOf r cleanWord = None) earlier →
  Str.endsWith cleanWord (suffix rule) = true →
  data !! baseOf rule cleanWord = Some e →
  trySuffixes data (earlier ++ rule :: later) original cleanWord
  = (let! rebuilt := rebuild rule e original cleanWord in Ok (Some rebuilt)).
Proof.
  intros Hearlier Hends Hbase.
  induction Hearlier as [|r earlier Hr _ IH].
  - by apply trySuffixes_hit.
  - rewrite <- app_comm_cons, trySuffixes_skip; [done|]. by apply applies_false.
Qed.

Lemma processWord_first_rule (data : gmap string WordData)
    (original pre sfx : string) (earlier later : list SuffixRule)
    (rule : SuffixRule) (e : WordData) :
  let cleanWord := Str.toLowerCase original in
  suffixes = earlier ++ rule :: later →
  original ≠ "" →
  data !! cleanWord = None →
  Forall (λ r, Str.endsWith cleanWord (suffix r) = true →
               data !! baseOf r cleanWord = None) earlier →
  Str.endsWith cleanWord (suffix rule) = true →
  data !! baseOf rule cleanWord = Some e →
  processWord data original pre sfx
  = (let! rebuilt := rebuild rule e original cleanWord in
     Ok (decorate original pre sfx rebuilt)).
Proof.
  intros cleanWord Htable Hne Hkey Hearlier Hends Hbase.
  rewrite processWord_unfold by done. fold cleanWord.
  unfold findWordData. rewrite Hkey, Htable.
  rewrite (trySuffixes_first data earlier rule later original cleanWord e) by done.
  by destruct (rebuild rule e original cleanWord).
Qed.

(** *** The [-d] rule on an [-ed] ending *)

Lemma lastElement_snoc (xs : list string) x : lastElement (xs ++ [x]) = Some x.
Proof. unfold lastElement. apply last_snoc. Qed.

Lemma allButLast_snoc (xs : list string) x : allButLast (xs ++ [x]) = xs.
Proof. unfold allButLast. apply removelast_last. Qed.

Lemma lyricize_single (data : gmap string WordData) (lyrics : string) :
  Str.any Char.isSpace lyrics = false →
  lyricize data lyrics = (let! r := lyricizeWord data lyrics in Ok [r]).
Proof.
  intros H. unfold lyricize. rewrite splitWhitespace_word by done. simpl.
  by destruct (lyricizeWord data lyrics).
Qed.

Lemma lyricizeWord_plain (data : gmap string WordData) (originalWord : string) :
  Str.keepLettersAndHyphens originalWord ≠ "" →
  Str.includesHyphen (Str.keepLettersAndHyphens originalWord) = false →
  lyricizeWord data originalWord
  = processWord data (Str.keepLettersAndHyphens originalWord)
      (Str.matchLeadingNonLetters originalWord)
      (Str.matchTrailingNonLetters originalWord).
Proof.
  intros Hcore Hhyphen. unfold lyricizeWord.
  destruct (Str.isEmpty originalWord) eqn:E.
  { apply str_isEmpty_true in E. by subst originalWord. }
  apply str_isEmpty_false in Hcore. by rewrite Hcore, Hhyphen.
Qed.

Lemma lyricizeWord_compound (data : gmap string WordData) (originalWord : string) :
  Str.includesHyphen (Str.keepLettersAndHyphens originalWord) = true →
  lyricizeWord data originalWord
  = (let! partResults :=
       mapResult (λ part, processWord data part "" "")
         (partsOf (Str.keepLettersAndHyphens originalWord)) in
     Ok (mkWordData
           (List.concat (List.map syllables partResults))
           (Str.matchLeadingNonLetters originalWord
            +:+ preserveCase originalWord
                  (Str.joinHyphen (List.map hyphenated partResults))
                  (Str.keepLettersAndHyphens originalWord)
            +:+ Str.matchTrailingNonLetters originalWord)
           (List.concat (List.map stresses partResults))
           (forallb isKnown partResults))).
Proof.
  intros Hhyphen. unfold lyricizeWord.
  destruct (Str.isEmpty originalWord) eqn:E.
  { apply str_isEmpty_true in E. by subst originalWord. }
  destruct (Str.isEmpty (Str.keepLettersAndHyphens originalWord)) eqn:Ecore.
  { apply str_isEmpty_true in Ecore. by rewrite Ecore in Hhyphen. }
  by rewrite Hhyphen.
Qed.

Lemma processWord_ed_after_e (data : gmap string WordData)
    (original pre sfx : string) (e : WordData) (init : list string)
    (lastSyllable : string) :
  let cleanWord := Str.toLowerCase original in
  Str.endsWith cleanWord "ed" = true →
  data !! cleanWord = None →
  data !! Str.sliceNeg cleanWord 2 = None →
  data !! Str.sliceNeg cleanWord 1 = Some e →
  syllables e = init ++ [lastSyllable] →
  processWord data original pre sfx
  = Ok (mkWordData
          (init ++ [Str.sliceNeg lastSyllable 1; "ed"])
          (pre +:+ preserveCase original
                     (Str.sliceNeg (hyphenated e) 1 +:+ "-ed") cleanWord
           +:+ sfx)
          (stresses e ++ [0%Z]) true).
Proof.
  intros cleanWord Hed Hkey Hbase2 Hbase1 Hsyl.
  assert (original ≠ "") as Hne.
  { intros ->. by vm_compute in Hed. }
  rewrite (processWord_first_rule data original pre sfx
    [mkSuffixRule "s" "" None; mkSuffixRule "es" "" (Some "es");
     mkSuffixRule "ed" "" (Some "ed"); mkSuffixRule "ing" "" (Some "ing");
     mkSuffixRule "ly" "" (Some "ly")]
    [] (mkSuffixRule "d" "" None) e); try done.
  - unfold rebuild. fold cleanWord. cbn [suffix syllable].
    change (String.eqb "d" "s") with false.
    change (String.eqb "d" "d") with true. rewrite Hed. cbn [andb].
    rewrite Hsyl, lastElement_snoc, allButLast_snoc. cbn [bind].
    unfold decorate. cbn [syllables hyphenated stresses].
    fold cleanWord. by rewrite preserveCase_idemp.
  - fold cleanWord.
    repeat apply Forall_cons_2; try apply Forall_nil_2;
      cbn beta; unfold baseOf; cbn [suffix replace String.length].
    + intros H. assert (Str.endsWith cleanWord "s" = false) as H'
        by (by apply (str_endsWith_last_differs cleanWord "e" "d" "" "s")).
      congruence.
    + intros H. assert (Str.endsWith cleanWord "es" = false) as H'
        by (by apply (str_endsWith_last_differs cleanWord "e" "d" "e" "s")).
      congruence.
    + intros _. by rewrite str_app_nil_r.
    + intros H. assert (Str.endsWith cleanWord "ing" = false) as H'
        by (by apply (str_endsWith_last_differs cleanWord "e" "d" "in" "g")).
      congruence.
    + intros H. assert (Str.endsWith cleanWord "ly" = false) as H'
        by (by apply (str_endsWith_last_differs cleanWord "e" "d" "l" "y")).
      congruence.
  - fold cleanWord. by apply (str_endsWith_app_r cleanWord "e" "d").
  - fold cleanWord. unfold baseOf. cbn [suffix replace String.length].
    by rewrite str_app_nil_r.
Qed.

(** *** Compound words *)




(** No piece contains a hyphen. *)
Lemma splitHyphen_hyphenless s :
  Forall (λ piece, Str.includesHyphen piece = false) (Str.splitHyphen s).
Proof.
  unfold Str.includesHyphen.
  induction s as [|c s IH]; simpl; [by repeat constructor|].
  destruct (Char.isHyphen c) eqn:Hc; [by constructor|].
  destruct (Str.splitHyphen s) as [|t ts].
  - constructor; [|constructor]. simpl. by rewrite Hc.
  - inversion IH; subst. constructor; [|done]. simpl. by rewrite Hc.
Qed.

Lemma processWord_direct (data : gmap string WordData) original pre sfx e :
  original ≠ "" →
  data !! Str.toLowerCase original = Some e →
  processWord data original pre sfx = Ok (decorate original pre sfx e).
Proof.
  intros Hne Hkey. rewrite processWord_unfold by done.
  unfold findWordData. by rewrite Hkey.
Qed.

(** *** Prefix, core and suffix *)

(** The leading match is a run of non-letters that starts the token and
    that no non-letter follows. *)
Lemma matchLeadingNonLetters_maximal s :
  ∃ rest, s = Str.matchLeadingNonLetters s +:+ rest
          ∧ Str.all nonLetter (Str.matchLeadingNonLetters s) = true
          ∧ Str.any nonLetter (Str.take 1 rest) = false.
Proof.
  induction s as [|c s (rest & Hs & Hall & Hrest)]; simpl.
  - by exists "".
  - destruct (Char.isLetter c) eqn:Hc.
    + exists (String c s). split; [done|]. split; [done|].
      simpl. unfold nonLetter. by rewrite Hc.
    + exists rest. rewrite str_app_cons, <- Hs. split; [done|].
      split; [|done]. simpl. unfold nonLetter at 1. by rewrite Hc.
Qed.

(** The trailing match is a run of non-letters that ends the token and
    that no non-letter precedes. *)
Lemma matchTrailingNonLetters_maximal s :
  ∃ rest, s = rest +:+ Str.matchTrailingNonLetters s
          ∧ Str.all nonLetter (Str.matchTrailingNonLetters s) = true
          ∧ ∀ rest' c, rest = rest' +:+ String c "" → Char.isLetter c = true.
Proof.
  induction s as [|c s (rest & Hs & Hall & Hrest)].
  - exists "". split; [done|]. split; [done|]. by intros [|??] ?.
  - cbn [Str.matchTrailingNonLetters]. fold nonLetter.
    destruct (Str.all nonLetter (String c s)) eqn:E.
    + exists "". split; [done|]. split; [done|]. by intros [|??] ?.
    + exists (String c rest). rewrite str_app_cons, <- Hs.
      split; [done|]. split; [done|].
      intros [|c' rest'] c0 Heq.
      * rewrite str_app_nil_l in Heq. injection Heq as <- ->.
        rewrite str_app_nil_l in Hs. simpl in E. rewrite <- Hs in Hall.
        rewrite Hall, andb_true_r in E. unfold nonLetter in E.
        by apply negb_false_iff in E.
      * rewrite str_app_cons in Heq. injection Heq as <- ->.
        by eapply Hrest.
Qed.

Lemma lyricize_hello_like (data : gmap string WordData) (e : WordData)
    (originalWord core : string) :
  data !! Str.toLowerCase core = Some e →
  Str.any Char.isSpace originalWord = false →
  Str.keepLettersAndHyphens originalWord = core →
  core ≠ "" →
  Str.includesHyphen core = false →
  lyricize data originalWord
  = Ok [decorate core (Str.matchLeadingNonLetters originalWord)
          (Str.matchTrailingNonLetters originalWord) e].
Proof.
  intros Hkey Hspace Hcore Hne Hhyphen.
  rewrite lyricize_single by done.
  rewrite lyricizeWord_plain by (by rewrite Hcore).
  rewrite Hcore. by rewrite (processWord_direct data core _ _ e).
Qed.

(** *** Tokens of hyphens and symbols *)

Lemma matchLeadingNonLetters_letterless s :
  Str.any Char.isLetter s = false → Str.matchLeadingNonLetters s = s.
Proof.
  induction s as [|c s IH]; [done|]. simpl.
  intros [Hc Hs]%orb_false_iff. by rewrite Hc, IH.
Qed.

Lemma matchTrailingNonLetters_letterless s :
  Str.any Char.isLetter s = false → Str.matchTrailingNonLetters s = s.
Proof.
  intros Hs.
  assert (Str.all (λ c, negb (Char.isLetter c)) s = true) as Hall.
  { induction s as [|c s IH]; [done|]. simpl in *.
    apply orb_false_iff in Hs as [Hc Hs]. by rewrite Hc, IH. }
  destruct s as [|c s]; [done|]. cbn [Str.matchTrailingNonLetters]. by rewrite Hall.
Qed.

Lemma includesHyphen_keep s :
  Str.includesHyphen (Str.keepLettersAndHyphens s) = Str.includesHyphen s.
Proof.
  unfold Str.includesHyphen, Str.keepLettersAndHyphens.
  induction s as [|c s IH]; [done|]. simpl.
  destruct (Char.isHyphen c) eqn:Hc.
  - rewrite orb_true_r. simpl. by rewrite Hc.
  - rewrite orb_false_r. destruct (Char.isLetter c); simpl; by rewrite ?Hc, IH.
Qed.

Lemma partsOf_letterless s :
  Str.any Char.isLetter s = false → partsOf (Str.keepLettersAndHyphens s) = [].
Proof.
  unfold partsOf, Str.keepLettersAndHyphens.
  induction s as [|c s IH]; [done|]. simpl.
  intros [Hc Hs]%orb_false_iff. rewrite Hc. simpl.
  destruct (Char.isHyphen c) eqn:Hh; [|by apply IH].
  simpl. rewrite Hh. simpl. by apply IH.
Qed.

Lemma preserveCase_empty original cleanOriginal :
  preserveCase original "" cleanOriginal = "".
Proof. unfold preserveCase. by repeat case_match. Qed.

(** ** Properties of the engine *)

(** C1, as stated, fails: balanced entries are not enough.  With the
    balanced entry [hollowEntry] under ["x"], the token ["xs"] takes the
    [-s] rule, which reads the last syllable of an empty array, gets
    [undefined], and stores the one syllable ["undefineds"] next to no
    stress at all. *)
Lemma lyricize_unbalanced_on_hollow_entry :
  ¬ (∀ (data : gmap string WordData) (lyrics : string) (records : list WordData)
       (r : WordData),
        dictBalanced data →
        lyricize data lyrics = Ok records →
        r ∈ records →
        length (syllables r) = length (stresses r)).
Proof.
  intros H.
  specialize (H hollowData "xs" [mkWordData ["undefineds"] "s" [] true]
                (mkWordData ["undefineds"] "s" [] true) hollowData_balanced).
  assert (1 = 0)%nat as Habs; [|discriminate Habs].
  apply H; [by vm_compute | by left].
Qed.

(** C1 (amended): when every dictionary entry has at least one syllable
    and as many stresses as syllables, and the dictionary has an entry
    under ["constructor"], so that no lookup finds the inherited name,
    [lyricize] returns, for every input string, records whose syllables
    and stresses have equal length. *)
Theorem lyricize_balanced (data : gmap string WordData) (lyrics : string) :
  shadowsInherited data →
  dictNonEmpty data →
  dictBalanced data →
  ∃ records,
    lyricize data lyrics = Ok records
    ∧ Forall (λ r, length (syllables r) = length (stresses r)) records.
Proof.
  intros _ Hne Hbal. unfold lyricize.
  destruct (mapResult_total (lyricizeWord data) (Str.splitWhitespace lyrics))
    as [records Hrecords].
  { apply Forall_forall. intros tok _. by apply lyricizeWord_total. }
  exists records. split; [done|].
  apply mapResult_Forall2 in Hrecords.
  induction Hrecords as [|tok r toks rs Hr _ IH]; constructor; [|done].
  by apply (lyricizeWord_balanced data tok r Hne Hbal).
Qed.

Lemma lyricize_balanced_witness :
  shadowsInherited safeData ∧ dictNonEmpty safeData ∧ dictBalanced safeData ∧
  ∃ records,
    lyricize safeData "Let constructors brightly sing life-renewing songs"
    = Ok records
    ∧ Forall (λ r, length (syllables r) = length (stresses r)) records.
Proof.
  split; [exact safeData_shadows|].
  split; [exact safeData_nonEmpty|]. split; [exact safeData_balanced|].
  apply (lyricize_balanced safeData);
    [exact safeData_shadows | exact safeData_nonEmpty | exact safeData_balanced].
Defined.

(** C2, as stated, fails: [lyricize] does not return for every input
    string.  With the entry [hollowEntry] under ["ye"], the text ["a yed"]
    has two tokens and no record at all: the second token reaches the
    [-d] rule in its [-ed] form, which calls [slice] on [undefined]. *)
Lemma lyricize_returns_nothing_on_hollow_entry :
  ¬ (∀ (data : gmap string WordData) (lyrics : string),
        ∃ records,
          lyricize data lyrics = Ok records
          ∧ length records = length (Str.splitWhitespace lyrics)).
Proof.
  intros H. destruct (H hollowData "a yed") as (records & Hrecords & _).
  vm_compute in Hrecords. discriminate Hrecords.
Qed.

(** C2 (amended): when every dictionary entry has at least one syllable
    and the dictionary has an entry under ["constructor"], [lyricize]
    returns one record per token of the text split on runs of white
    space, in order: the records are, token by token, what the callback
    makes of the token, the record of an empty token, as leading and
    trailing white space produce, being the empty record.  The tokens are
    free of white space; a text without white space is its own token, and
    a token ends at a run of white space that is consumed whole.  So
    ["  hello  "] gives three records, the first and the last empty. *)
Theorem lyricize_one_record_per_token (data : gmap string WordData) (lyrics : string) :
  shadowsInherited data →
  dictNonEmpty data →
  let tokens := Str.splitWhitespace lyrics in
  (∃ records,
     lyricize data lyrics = Ok records
     ∧ length records = length tokens
     ∧ Forall2 (λ tok r, lyricizeWord data tok = Ok r ∧ (tok = "" → r = emptyRecord))
         tokens records)
  ∧ Forall (λ tok, Str.any Char.isSpace tok = false) tokens
  ∧ (∀ word, Str.any Char.isSpace word = false → Str.splitWhitespace word = [word])
  ∧ (∀ word spaces rest,
       Str.any Char.isSpace word = false →
       spaces ≠ "" → Str.all Char.isSpace spaces = true →
       Str.all Char.isSpace (Str.take 1 rest) = false ∨ rest = "" →
       Str.splitWhitespace (word +:+ spaces +:+ rest)
       = word :: Str.splitWhitespace rest)
  ∧ Str.splitWhitespace "  hello  " = [""; "hello"; ""]
  ∧ ∃ r, lyricize data "  hello  " = Ok [emptyRecord; r; emptyRecord].
Proof.
  intros _ Hne tokens.
  split; [|split; [|split; [|split; [|split; [done|]]]]].
  - destruct (mapResult_total (lyricizeWord data) tokens) as [records Hrecords].
    { apply Forall_forall. intros tok _. by apply lyricizeWord_total. }
    exists records. split; [done|].
    apply mapResult_Forall2 in Hrecords. split.
    + symmetry. by eapply Forall2_length.
    + eapply Forall2_impl; [exact Hrecords|]. intros tok r Hr. split; [done|].
      intros ->. by injection Hr.
  - apply splitSpaces_spaceless.
  - apply splitWhitespace_word.
  - apply splitWhitespace_run.
  - unfold lyricize.
    change (Str.splitWhitespace "  hello  ") with [""; "hello"; ""].
    cbn [mapResult].
    change (lyricizeWord data "") with (Ok emptyRecord). cbn [bind].
    rewrite lyricizeWord_plain, processWord_unfold by done.
    change (Str.keepLettersAndHyphens "hello") with "hello".
    change (Str.toLowerCase "hello") with "hello".
    unfold findWordData. destruct (data !! "hello") as [e|]; [by eexists|].
    rewrite trySuffixes_none; [by eexists|].
    unfold suffixes.
    repeat (apply Forall_cons_2;
            [apply applies_false; intros Hends; by vm_compute in Hends|]).
    apply Forall_nil_2.
Qed.

Lemma lyricize_one_record_per_token_witness :
  ∃ records,
    lyricize safeData " sing  brightly " = Ok records ∧ length records = 4%nat.
Proof.
  destruct (lyricize_one_record_per_token safeData " sing  brightly "
              safeData_shadows safeData_nonEmpty)
    as ((records & Hrecords & Hlength & _) & _).
  exists records. split; [exact Hrecords | exact Hlength].
Defined.

(** C3, as stated, fails: a record can be known without any dictionary
    hit.  The token ["--"] has a core of hyphens and no part, and the
    conjunction of the flags of no part is true: its record is known with
    the empty dictionary, in which no word is a hit. *)
Lemma known_without_dictionary_hit :
  ¬ (∀ (data : gmap string WordData) (originalWord : string) (r : WordData),
        lyricizeWord data originalWord = Ok r →
        isKnown r = true →
        ∃ cleanWord, dictionaryHit data cleanWord).
Proof.
  intros H.
  destruct (H ∅ "--" (mkWordData [] "----" [] true)) as [cleanWord Hhit];
    [by vm_compute | done |].
  destruct Hhit as [[e He]|Hrule].
  - by rewrite lookup_empty in He.
  - apply Exists_exists in Hrule as (rule & _ & _ & [e He]).
    by rewrite lookup_empty in He.
Qed.

(** C3 (amended): with a dictionary that has an entry under
    ["constructor"], the record of a token whose core has no hyphen is
    known exactly when the core is non-empty and its lowercase form is a
    dictionary hit, directly or through a suffix rule; the record of a
    token whose core has a hyphen is known exactly when every part's
    record is, each part being known exactly when it is a dictionary hit,
    so that a core without parts is known.  This holds of whatever record
    the callback returns, and it returns one when no dictionary entry
    lacks syllables. *)
Theorem isKnown_iff_dictionary_hit (data : gmap string WordData) (originalWord : string) :
  shadowsInherited data →
  let core := Str.keepLettersAndHyphens originalWord in
  (∀ r,
     lyricizeWord data originalWord = Ok r →
     (Str.includesHyphen core = false →
      (isKnown r = true ↔ core ≠ "" ∧ dictionaryHit data (Str.toLowerCase core)))
     ∧ (Str.includesHyphen core = true →
        ∃ partResults,
          Forall2 (λ part pr,
                     processWord data part "" "" = Ok pr
                     ∧ (isKnown pr = true ↔ dictionaryHit data (Str.toLowerCase part)))
            (partsOf core) partResults
          ∧ isKnown r = forallb isKnown partResults))
  ∧ (dictNonEmpty data → ∃ r, lyricizeWord data originalWord = Ok r).
Proof.
  intros _ core. split; [|by apply lyricizeWord_total].
  intros r. unfold lyricizeWord. fold core.
  destruct (Str.isEmpty originalWord) eqn:Eword.
  { apply str_isEmpty_true in Eword. subst originalWord.
    intros [= <-]. simpl. split; [|done]. intros _. by split; [|intros []]. }
  destruct (Str.isEmpty core) eqn:Ecore.
  { apply str_isEmpty_true in Ecore. rewrite Ecore.
    intros [= <-]. simpl. split; [|done]. intros _. by split; [|intros []]. }
  apply str_isEmpty_false in Ecore.
  destruct (Str.includesHyphen core) eqn:Ehyphen.
  - fold (partsOf core). intros (partResults & Hparts & [= <-])%bind_Ok.
    split; [done|]. intros _. exists partResults. split; [|done].
    apply mapResult_Forall2 in Hparts. pose proof (partsOf_nonempty core) as Hnonempty.
    induction Hparts as [|part pr parts prs Hpr _ IH]; [constructor|].
    inversion Hnonempty; subst. constructor; [|by apply IH].
    split; [done|]. by eapply processWord_isKnown.
  - intros Hr. split; [|done]. intros _.
    pose proof (processWord_isKnown data core _ _ r Ecore Hr) as Hiff.
    split; [intros Hk%Hiff; by split | intros [_ Hhit]; by apply Hiff].
Qed.

Lemma isKnown_iff_dictionary_hit_witness :
  ∃ r partResults,
    lyricizeWord safeData "life-xyzabc," = Ok r
    ∧ Forall2 (λ part pr,
                 processWord safeData part "" "" = Ok pr
                 ∧ (isKnown pr = true ↔ dictionaryHit safeData (Str.toLowerCase part)))
        ["life"; "xyzabc"] partResults
    ∧ isKnown r = forallb isKnown partResults.
Proof.
  destruct (isKnown_iff_dictionary_hit safeData "life-xyzabc," safeData_shadows)
    as [Hshape Hreturns].
  destruct (Hreturns safeData_nonEmpty) as [r Hr].
  destruct (Hshape r Hr) as [_ Hcompound].
  destruct Hcompound as (partResults & Hparts & Hknown); [vm_compute; reflexivity|].
  exists r, partResults. split; [exact Hr|]. split; [exact Hparts | exact Hknown].
Defined.

(** C4, as stated, fails twice.  [lyricize] throws on some dictionaries:
    with the entry [hollowEntry] under ["ye"], the token ["yed"] reaches
    the [-d] rule in its [-ed] form, which calls [slice] on the last
    syllable of an empty array, that is on [undefined].  And a core that
    is found by no route because it is empty does not give the record of
    the claim: the token ["123"] is returned whole. *)
Lemma hollow_entry_throws_and_bare_token_kept :
  ¬ (∀ (data : gmap string WordData) (lyrics : string),
        ∃ records, lyricize data lyrics = Ok records)
  ∧ ¬ (∀ (data : gmap string WordData) (originalWord : string),
          let pre := Str.matchLeadingNonLetters originalWord in
          let sfx := Str.matchTrailingNonLetters originalWord in
          let core := Str.keepLettersAndHyphens originalWord in
          Str.includesHyphen core = false →
          data !! Str.toLowerCase core = None →
          Forall (λ rule, Str.endsWith (Str.toLowerCase core) (suffix rule) = true →
                          data !! baseOf rule (Str.toLowerCase core) = None) suffixes →
          lyricizeWord data originalWord
          = Ok (mkWordData [core] (pre +:+ core +:+ sfx) [0%Z] false)).
Proof.
  split.
  - intros H. destruct (H hollowData "yed") as [records Hrecords].
    vm_compute in Hrecords. discriminate Hrecords.
  - intros H. specialize (H ∅ "123"). cbv zeta in H.
    assert (lyricizeWord ∅ "123" = Ok (mkWordData ["123"] "123" [0%Z] false)) as Hcode
      by (by vm_compute).
    rewrite Hcode in H.
    assert (Ok (mkWordData ["123"] "123" [0%Z] false)
            = Ok (mkWordData [""] "123123" [0%Z] false)) as Habs; [|discriminate Habs].
    apply H; [by vm_compute | by vm_compute |].
    no_rule_applies.
Qed.

(** C4 (amended): with a dictionary that has an entry under
    ["constructor"], [lyricize] never throws when every entry has at
    least one syllable; and a token whose non-empty core has no hyphen and
    is found neither directly nor through any suffix rule yields the
    single-syllable record built from the original-cased core, wrapped in
    the token's prefix and suffix, as ["xyzabc"] does. *)
Theorem lyricize_total_and_fallback (data : gmap string WordData) :
  shadowsInherited data →
  (dictNonEmpty data → ∀ lyrics, ∃ records, lyricize data lyrics = Ok records)
  ∧ (∀ originalWord,
       let pre := Str.matchLeadingNonLetters originalWord in
       let sfx := Str.matchTrailingNonLetters originalWord in
       let core := Str.keepLettersAndHyphens originalWord in
       core ≠ "" →
       Str.includesHyphen core = false →
       data !! Str.toLowerCase core = None →
       Forall (λ rule, Str.endsWith (Str.toLowerCase core) (suffix rule) = true →
                       data !! baseOf rule (Str.toLowerCase core) = None) suffixes →
       lyricizeWord data originalWord
       = Ok (mkWordData [core] (pre +:+ core +:+ sfx) [0%Z] false))
  ∧ (data !! "xyzabc" = None →
     lyricize data "xyzabc" = Ok [mkWordData ["xyzabc"] "xyzabc" [0%Z] false]).
Proof.
  intros _. split; [|split].
  - intros Hne lyrics. unfold lyricize. apply mapResult_total, Forall_forall.
    intros tok _. by apply lyricizeWord_total.
  - intros originalWord pre sfx core Hcore Hhyphen Hkey Hrules.
    unfold lyricizeWord. fold core pre sfx.
    destruct (Str.isEmpty originalWord) eqn:E.
    { apply str_isEmpty_true in E. subst originalWord. done. }
    apply str_isEmpty_false in Hcore as Hcore'. rewrite Hcore', Hhyphen.
    by apply processWord_fallback.
  - intros Hkey. unfold lyricize.
    change (Str.splitWhitespace "xyzabc") with ["xyzabc"].
    cbn [mapResult]. unfold lyricizeWord.
    change (Str.isEmpty "xyzabc") with false.
    change (Str.keepLettersAndHyphens "xyzabc") with "xyzabc".
    change (Str.matchLeadingNonLetters "xyzabc") with "".
    change (Str.matchTrailingNonLetters "xyzabc") with "".
    change (Str.isEmpty "xyzabc") with false.
    change (Str.includesHyphen "xyzabc") with false. cbv iota.
    rewrite processWord_fallback; [done|done|done|].
    no_rule_applies.
Qed.

Lemma lyricize_total_and_fallback_witness :
  (∃ records, lyricize safeData "Hello, CONSTRUCTORS xyzabc!" = Ok records)
  ∧ lyricizeWord safeData "(Xyzabc!)"
    = Ok (mkWordData ["Xyzabc"] "(Xyzabc!)" [0%Z] false)
  ∧ lyricize safeData "xyzabc" = Ok [mkWordData ["xyzabc"] "xyzabc" [0%Z] false].
Proof.
  destruct (lyricize_total_and_fallback safeData safeData_shadows)
    as (Htotal & Hfallback & Hexample).
  split; [|split].
  - apply Htotal. exact safeData_nonEmpty.
  - apply (Hfallback "(Xyzabc!)").
    + vm_compute. discriminate.
    + vm_compute. reflexivity.
    + vm_compute. reflexivity.
    + no_rule_applies.
  - apply Hexample. vm_compute. reflexivity.
Defined.

(** C5: when the lowercased word is no key, the rules are tried in the
    order s, es, ed, ing, ly, d; the first rule whose suffix ends the word
    and whose base is a key decides the result, which is the rebuilding of
    that base's entry under that rule, whatever rules come later. *)
Theorem first_applicable_suffix_decides (data : gmap string WordData)
    (original pre sfx : string) (earlier later : list SuffixRule)
    (rule : SuffixRule) (e : WordData) :
  let cleanWord := Str.toLowerCase original in
  suffixes = earlier ++ rule :: later →
  data !! cleanWord = None →
  Forall (λ r, Str.endsWith cleanWord (suffix r) = true →
               data !! (Str.sliceNeg cleanWord (String.length (suffix r)) +:+ replace r)
               = None) earlier →
  Str.endsWith cleanWord (suffix rule) = true →
  data !! (Str.sliceNeg cleanWord (String.length (suffix rule)) +:+ replace rule) = Some e →
  List.map suffix suffixes = ["s"; "es"; "ed"; "ing"; "ly"; "d"]
  ∧ (∀ others, trySuffixes data (earlier ++ rule :: others) original cleanWord
               = (let! rebuilt := rebuild rule e original cleanWord in Ok (Some rebuilt)))
  ∧ processWord data original pre sfx
    = (let! rebuilt := rebuild rule e original cleanWord in
       Ok (decorate original pre sfx rebuilt)).
Proof.
  intros cleanWord Htable Hkey Hearlier Hends Hbase.
  assert (original ≠ "") as Hne.
  { intros ->. assert (rule ∈ suffixes) as Hin.
    { rewrite Htable. apply elem_of_app. right. by left. }
    unfold suffixes in Hin.
    repeat (apply elem_of_cons in Hin as [->|Hin]; [by vm_compute in Hends|]).
    by apply elem_of_nil in Hin. }
  split; [done|]. split.
  - intros others. by apply trySuffixes_first.
  - by apply (processWord_first_rule data original pre sfx earlier later).
Qed.

Lemma first_applicable_suffix_decides_witness :
  Str.endsWith "singed" "d" = true
  ∧ is_Some (sampleData !! "singe")
  ∧ processWord sampleData "Singed" "(" ")"
    = Ok (mkWordData ["sing"; "ed"] "(Sing-ed)" [2; 0]%Z true).
Proof.
  split; [reflexivity|]. split; [by eexists|].
  pose proof (first_applicable_suffix_decides sampleData "Singed" "(" ")"
    [mkSuffixRule "s" "" None; mkSuffixRule "es" "" (Some "es")]
    [mkSuffixRule "ing" "" (Some "ing"); mkSuffixRule "ly" "" (Some "ly");
     mkSuffixRule "d" "" None]
    (mkSuffixRule "ed" "" (Some "ed"))
    (entry ["sing"] [2%Z])) as H.
  destruct H as (_ & _ & ->).
  - reflexivity.
  - vm_compute. reflexivity.
  - repeat (apply Forall_cons_2; [vm_compute; discriminate|]). apply Forall_nil_2.
  - vm_compute. reflexivity.
  - vm_compute. reflexivity.
  - vm_compute. reflexivity.
Defined.

(** C6: for a word that ends in "ed", that is no key, whose base without
    "ed" is no key, and whose base without the final "d" is a key, the
    result keeps the entry's syllables but the last, which it replaces by
    its stub without the final character followed by the new syllable
    "ed"; a stress 0 is appended; and the hyphenated form is the entry's
    with its last character replaced by "-ed" (then reconciled with the
    case of the word and wrapped).  So ["translated"], from the entry of
    ["translate"], gives trans, lat, ed with stresses 0, 0, 0. *)
Theorem ed_rule_after_elided_e (data : gmap string WordData) :
  (∀ (original pre sfx : string) (e : WordData) (init : list string)
     (lastSyllable : string),
      let cleanWord := Str.toLowerCase original in
      Str.endsWith cleanWord "ed" = true →
      data !! cleanWord = None →
      data !! Str.sliceNeg cleanWord 2 = None →
      data !! Str.sliceNeg cleanWord 1 = Some e →
      syllables e = init ++ [lastSyllable] →
      processWord data original pre sfx
      = Ok (mkWordData
              (init ++ [Str.sliceNeg lastSyllable 1; "ed"])
              (pre +:+ preserveCase original
                         (Str.sliceNeg (hyphenated e) 1 +:+ "-ed") cleanWord
               +:+ sfx)
              (stresses e ++ [0%Z]) true))
  ∧ (data !! "translated" = None →
     data !! "translat" = None →
     data !! "translate" = Some (mkWordData ["trans"; "late"] "trans-late" [0; 0]%Z true) →
     lyricize data "translated"
     = Ok [mkWordData ["trans"; "lat"; "ed"] "trans-lat-ed" [0; 0; 0]%Z true]).
Proof.
  split; [apply processWord_ed_after_e|].
  intros Hkey Hbase2 Hbase1.
  rewrite lyricize_single by done.
  rewrite lyricizeWord_plain by done.
  change (Str.keepLettersAndHyphens "translated") with "translated".
  change (Str.matchLeadingNonLetters "translated") with "".
  change (Str.matchTrailingNonLetters "translated") with "".
  by rewrite (processWord_ed_after_e data "translated" "" ""
                (mkWordData ["trans"; "late"] "trans-late" [0; 0]%Z true)
                ["trans"] "late").
Qed.

Lemma ed_rule_after_elided_e_witness :
  processWord sampleData "Translated" "" "."
  = Ok (mkWordData ["trans"; "lat"; "ed"] "Trans-lat-ed." [0; 0; 0]%Z true)
  ∧ lyricize sampleData "translated"
    = Ok [mkWordData ["trans"; "lat"; "ed"] "trans-lat-ed" [0; 0; 0]%Z true].
Proof.
  destruct (ed_rule_after_elided_e sampleData) as [Hgeneral Hexample].
  split.
  - apply (Hgeneral "Translated" "" "." (entry ["trans"; "late"] [0; 0]%Z)
             ["trans"] "late").
    + vm_compute. reflexivity.
    + vm_compute. reflexivity.
    + vm_compute. reflexivity.
    + vm_compute. reflexivity.
    + vm_compute. reflexivity.
  - apply Hexample.
    + vm_compute. reflexivity.
    + vm_compute. reflexivity.
    + vm_compute. reflexivity.
Defined.




(** C8, as stated, fails on a token without letters and hyphens: the
    record of ["123"] keeps the token as its hyphenated form, which is not
    the token's prefix followed by anything and by the token's suffix,
    both matches being the whole token. *)
Lemma hyphenated_not_wrapped_without_core :
  ¬ (∀ (data : gmap string WordData) (originalWord : string) (r : WordData),
        originalWord ≠ "" →
        lyricizeWord data originalWord = Ok r →
        ∃ mid,
          hyphenated r
          = Str.matchLeadingNonLetters originalWord +:+ mid
            +:+ Str.matchTrailingNonLetters originalWord).
Proof.
  intros H.
  destruct (H ∅ "123" (mkWordData ["123"] "123" [0%Z] false)) as (mid & Hmid);
    [done | by vm_compute |].
  cbn [hyphenated] in Hmid. apply (f_equal String.length) in Hmid.
  change (Str.matchLeadingNonLetters "123") with "123" in Hmid.
  change (Str.matchTrailingNonLetters "123") with "123" in Hmid.
  rewrite !str_length_app in Hmid. simpl in Hmid. lia.
Qed.

(** C8 (amended): with a dictionary that has an entry under
    ["constructor"], for every token whose core is non-empty, the hyphenated
    output is the token's prefix, then the case-reconciled hyphenation of
    the core, then the token's suffix.  Prefix and suffix are the maximal
    leading and trailing runs of non-letters, and the core is the token
    without the characters that are neither letters nor hyphens.  For a
    core without hyphen the middle is the reconciled hyphenation of the
    entry found, or the core itself when none is; for a core with hyphens
    it is the parts' hyphenations joined by hyphens and reconciled against
    the token.  This holds of whatever record the callback returns, and it
    returns one when no dictionary entry lacks syllables.  So ["hello!"]
    gives "hel-lo!", ['hello] gives "'hel-lo" and ["123hello456"], of core
    "hello", gives "123hel-lo456". *)
Theorem hyphenated_wraps_core (data : gmap string WordData) :
  shadowsInherited data →
  (∀ originalWord r,
     let pre := Str.matchLeadingNonLetters originalWord in
     let sfx := Str.matchTrailingNonLetters originalWord in
     let core := Str.filter (λ c, Char.isLetter c || Char.isHyphen c) originalWord in
     core ≠ "" →
     lyricizeWord data originalWord = Ok r →
     ∃ mid,
       hyphenated r = pre +:+ mid +:+ sfx
       ∧ (Str.includesHyphen core = false →
          ∃ found,
            findWordData data core (Str.toLowerCase core) = Ok found
            ∧ mid = match found with
                    | Some wordData =>
                        preserveCase core (hyphenated wordData) (Str.toLowerCase core)
                    | None => core
                    end)
       ∧ (Str.includesHyphen core = true →
          ∃ partResults,
            Forall2 (λ part pr, processWord data part "" "" = Ok pr)
              (partsOf core) partResults
            ∧ mid = preserveCase originalWord
                      (Str.joinHyphen (List.map hyphenated partResults)) core))
  ∧ (dictNonEmpty data → ∀ originalWord, ∃ r, lyricizeWord data originalWord = Ok r)
  ∧ (∀ originalWord,
       (∃ rest, originalWord = Str.matchLeadingNonLetters originalWord +:+ rest
                ∧ Str.all nonLetter (Str.matchLeadingNonLetters originalWord) = true
                ∧ Str.any nonLetter (Str.take 1 rest) = false)
       ∧ (∃ rest, originalWord = rest +:+ Str.matchTrailingNonLetters originalWord
                  ∧ Str.all nonLetter (Str.matchTrailingNonLetters originalWord) = true
                  ∧ ∀ rest' c, rest = rest' +:+ String c "" → Char.isLetter c = true))
  ∧ (∀ e, data !! "hello" = Some e →
          hyphenated e = "hel-lo" →
          (∃ r, lyricize data "hello!" = Ok [r] ∧ hyphenated r = "hel-lo!")
          ∧ (∃ r, lyricize data "'hello" = Ok [r] ∧ hyphenated r = "'hel-lo")
          ∧ Str.keepLettersAndHyphens "123hello456" = "hello"
          ∧ (∃ r, lyricize data "123hello456" = Ok [r]
                  ∧ hyphenated r = "123hel-lo456")).
Proof.
  intros _. split; [|split; [|split]].
  - intros originalWord r pre sfx core Hcore.
    change core with (Str.keepLettersAndHyphens originalWord) in *.
    destruct (Str.includesHyphen (Str.keepLettersAndHyphens originalWord)) eqn:Hhyphen.
    + rewrite lyricizeWord_compound by done.
      intros (partResults & Hparts & [= <-])%bind_Ok.
      eexists. split; [done|]. split; [done|].
      intros _. exists partResults. split; [by apply mapResult_Forall2 | done].
    + rewrite lyricizeWord_plain, processWord_unfold by done.
      intros (found & Hfound & [= <-])%bind_Ok.
      destruct found as [wordData|]; eexists;
        (split; [done|]); (split; [|done]); intros _; by eexists.
  - intros Hne originalWord. by apply lyricizeWord_total.
  - intros originalWord. split.
    + apply matchLeadingNonLetters_maximal.
    + apply matchTrailingNonLetters_maximal.
  - intros e Hkey He. repeat split.
    + eexists. rewrite (lyricize_hello_like data e "hello!" "hello") by done.
      split; [done|]. cbn [decorate hyphenated]. rewrite He. by vm_compute.
    + eexists. rewrite (lyricize_hello_like data e "'hello" "hello") by done.
      split; [done|]. cbn [decorate hyphenated]. rewrite He. by vm_compute.
    + eexists. rewrite (lyricize_hello_like data e "123hello456" "hello") by done.
      split; [done|]. cbn [decorate hyphenated]. rewrite He. by vm_compute.
Qed.

Lemma hyphenated_wraps_core_witness :
  (∃ r mid,
     lyricizeWord safeData "'Brightly!'" = Ok r
     ∧ hyphenated r = "'" +:+ mid +:+ "!'")
  ∧ (∃ r, lyricize safeData "hello!" = Ok [r] ∧ hyphenated r = "hel-lo!").
Proof.
  destruct (hyphenated_wraps_core safeData safeData_shadows) as (Hshape & Hreturns & _ & Hexample).
  split.
  - destruct (Hreturns safeData_nonEmpty "'Brightly!'") as [r Hr].
    destruct (Hshape "'Brightly!'" r) as (mid & Hmid & _).
    + vm_compute. discriminate.
    + exact Hr.
    + exists r, mid. split; [exact Hr | exact Hmid].
  - destruct (Hexample (entry ["hel"; "lo"] [0; 2]%Z)) as (H & _).
    + vm_compute. reflexivity.
    + vm_compute. reflexivity.
    + exact H.
Defined.

(** C9: [preserveCase] returns the hyphenated string as it is unless the
    original, lowercased, is the clean word; when it is, an original equal
    to its uppercasing has the whole hyphenated string uppercased, and
    otherwise an original equal to the capitalization of its lowercasing
    has the first character alone uppercased, and any other original
    changes nothing.  The uppercase test comes first: it wins for an
    original that passes both.  So ["HELLO"] gives "HEL-LO", ["Hello"]
    gives "Hel-lo" and ["hello"] gives "hel-lo". *)
Theorem preserveCase_rules :
  (∀ original hyphenated cleanOriginal,
     (Str.toLowerCase original ≠ cleanOriginal →
      preserveCase original hyphenated cleanOriginal = hyphenated)
     ∧ (Str.toLowerCase original = cleanOriginal →
        (original = Str.toUpperCase original →
         preserveCase original hyphenated cleanOriginal = Str.toUpperCase hyphenated)
        ∧ (original ≠ Str.toUpperCase original →
           original = capitalize (Str.toLowerCase original) →
           preserveCase original hyphenated cleanOriginal = capitalize hyphenated)
        ∧ (original ≠ Str.toUpperCase original →
           original ≠ capitalize (Str.toLowerCase original) →
           preserveCase original hyphenated cleanOriginal = hyphenated)))
  ∧ (∀ c rest, capitalize (String c rest) = String (Char.toUpper c) rest)
  ∧ capitalize "" = ""
  ∧ ("A" = Str.toUpperCase "A" ∧ "A" = capitalize (Str.toLowerCase "A")
     ∧ preserveCase "A" "a-b" "a" = "A-B")
  ∧ (∀ (data : gmap string WordData) e,
       data !! "hello" = Some e →
       hyphenated e = "hel-lo" →
       (∃ r, lyricize data "HELLO" = Ok [r] ∧ hyphenated r = "HEL-LO")
       ∧ (∃ r, lyricize data "Hello" = Ok [r] ∧ hyphenated r = "Hel-lo")
       ∧ (∃ r, lyricize data "hello" = Ok [r] ∧ hyphenated r = "hel-lo")).
Proof.
  split; [|split; [|split; [|split]]].
  - intros original h cleanOriginal. unfold preserveCase. split; [|intros Hclean; repeat split].
    + intros Hclean%String.eqb_neq. by rewrite Hclean.
    + intros Hupper%String.eqb_eq. apply String.eqb_eq in Hclean.
      by rewrite Hclean, Hupper.
    + intros Hupper%String.eqb_neq Hcap%String.eqb_eq. apply String.eqb_eq in Hclean.
      by rewrite Hclean, Hupper, Hcap.
    + intros Hupper%String.eqb_neq Hcap%String.eqb_neq. apply String.eqb_eq in Hclean.
      by rewrite Hclean, Hupper, Hcap.
  - apply capitalize_cons.
  - apply capitalize_nil.
  - by vm_compute.
  - intros data e Hkey He. repeat split.
    + eexists. rewrite (lyricize_hello_like data e "HELLO" "HELLO") by done.
      split; [done|]. cbn [decorate hyphenated]. rewrite He. by vm_compute.
    + eexists. rewrite (lyricize_hello_like data e "Hello" "Hello") by done.
      split; [done|]. cbn [decorate hyphenated]. rewrite He. by vm_compute.
    + eexists. rewrite (lyricize_hello_like data e "hello" "hello") by done.
      split; [done|]. cbn [decorate hyphenated]. rewrite He. by vm_compute.
Qed.

Lemma preserveCase_rules_witness :
  preserveCase "Hello" "hel-lo" "hello" = "Hel-lo"
  ∧ preserveCase "HELLO" "hel-lo" "hello" = "HEL-LO"
  ∧ preserveCase "hello" "hel-lo" "hello" = "hel-lo"
  ∧ preserveCase "heLLo" "hel-lo" "hello" = "hel-lo"
  ∧ preserveCase "Hello!" "hel-lo" "hello" = "hel-lo"
  ∧ (∃ r, lyricize sampleData "HELLO" = Ok [r] ∧ hyphenated r = "HEL-LO").
Proof.
  destruct preserveCase_rules as (Hrules & _ & _ & _ & Hexample).
  split; [|split; [|split; [|split; [|split]]]].
  - destruct (Hrules "Hello" "hel-lo" "hello") as (_ & H).
    destruct H as (_ & H & _); [vm_compute; reflexivity|].
    apply H; [vm_compute; discriminate | vm_compute; reflexivity].
  - destruct (Hrules "HELLO" "hel-lo" "hello") as (_ & H).
    destruct H as (H & _); [vm_compute; reflexivity|].
    apply H. vm_compute. reflexivity.
  - destruct (Hrules "hello" "hel-lo" "hello") as (_ & H).
    destruct H as (_ & _ & H); [vm_compute; reflexivity|].
    apply H; vm_compute; discriminate.
  - destruct (Hrules "heLLo" "hel-lo" "hello") as (_ & H).
    destruct H as (_ & _ & H); [vm_compute; reflexivity|].
    apply H; vm_compute; discriminate.
  - destruct (Hrules "Hello!" "hel-lo" "hello") as (H & _).
    apply H. vm_compute. discriminate.
  - destruct (Hexample sampleData (entry ["hel"; "lo"] [0; 2]%Z)) as (H & _).
    + vm_compute. reflexivity.
    + vm_compute. reflexivity.
    + exact H.
Defined.

(** C10: a token with a hyphen and without letters has no parts; its
    record has no syllables and no stresses, is known, and its hyphenated
    form is the token twice, the prefix match and the suffix match being
    each the whole token: ["--"] gives "----". *)
Theorem letterless_hyphen_token (data : gmap string WordData) (originalWord : string) :
  Str.includesHyphen originalWord = true →
  Str.any Char.isLetter originalWord = false →
  Str.matchLeadingNonLetters originalWord = originalWord
  ∧ Str.matchTrailingNonLetters originalWord = originalWord
  ∧ List.filter (λ part, negb (Str.isEmpty part))
      (Str.splitHyphen (Str.keepLettersAndHyphens originalWord)) = []
  ∧ lyricizeWord data originalWord
    = Ok (mkWordData [] (originalWord +:+ originalWord) [] true)
  ∧ lyricize data "--" = Ok [mkWordData [] "----" [] true].
Proof.
  intros Hhyphen Hletters.
  split; [by apply matchLeadingNonLetters_letterless|].
  split; [by apply matchTrailingNonLetters_letterless|].
  split; [by apply partsOf_letterless|]. split.
  - rewrite lyricizeWord_compound by (by rewrite includesHyphen_keep).
    rewrite partsOf_letterless by done. cbn [mapResult bind List.map List.concat forallb].
    change (Str.joinHyphen []) with "". rewrite preserveCase_empty.
    rewrite matchLeadingNonLetters_letterless, matchTrailingNonLetters_letterless by done.
    done.
  - rewrite lyricize_single by done. rewrite lyricizeWord_compound by done.
    change (partsOf (Str.keepLettersAndHyphens "--")) with (@nil string).
    cbn [mapResult bind List.map List.concat forallb].
    change (Str.joinHyphen []) with "". by rewrite preserveCase_empty.
Qed.

Lemma letterless_hyphen_token_witness :
  lyricizeWord sampleData "-1-" = Ok (mkWordData [] "-1--1-" [] true)
  ∧ lyricize sampleData "--" = Ok [mkWordData [] "----" [] true].
Proof.
  destruct (letterless_hyphen_token sampleData "-1-") as (_ & _ & _ & Hword & Htwo).
  - vm_compute. reflexivity.
  - vm_compute. reflexivity.
  - split; [exact Hword | exact Htwo].
Defined.

(** ** Further properties of the engine *)

(** *** What the record of a token depends on *)

Lemma lyricizeWord_unfold (data : gmap string WordData) (originalWord : string) :
  Str.keepLettersAndHyphens originalWord ≠ "" →
  lyricizeWord data originalWord
  = if Str.includesHyphen (Str.keepLettersAndHyphens originalWord)
    then let! partResults :=
           mapResult (λ part, processWord data part "" "")
             (partsOf (Str.keepLettersAndHyphens originalWord)) in
         Ok (mkWordData
               (List.concat (List.map syllables partResults))
               (Str.matchLeadingNonLetters originalWord
                +:+ preserveCase originalWord
                      (Str.joinHyphen (List.map hyphenated partResults))
                      (Str.keepLettersAndHyphens originalWord)
                +:+ Str.matchTrailingNonLetters originalWord)
               (List.concat (List.map stresses partResults))
               (forallb isKnown partResults))
    else processWord data (Str.keepLettersAndHyphens originalWord)
           (Str.matchLeadingNonLetters originalWord)
           (Str.matchTrailingNonLetters originalWord).
Proof.
  intros Hcore.
  destruct (Str.includesHyphen (Str.keepLettersAndHyphens originalWord)) eqn:E.
  - by apply lyricizeWord_compound.
  - by apply lyricizeWord_plain.
Qed.

(** X1: punctuation and digits around or inside a token change nothing
    but the rendering: two tokens with the same non-empty core have the
    same syllables, stresses and known flag, or both throw. *)
Theorem core_decides_shape (data : gmap string WordData) (tok1 tok2 : string) :
  Str.keepLettersAndHyphens tok1 = Str.keepLettersAndHyphens tok2 →
  Str.keepLettersAndHyphens tok1 ≠ "" →
  resultMap shape (lyricizeWord data tok1) = resultMap shape (lyricizeWord data tok2).
Proof.
  intros Hsame Hcore.
  rewrite !lyricizeWord_unfold by congruence. rewrite <- Hsame.
  destruct (Str.includesHyphen (Str.keepLettersAndHyphens tok1)).
  - by destruct (mapResult _ _).
  - assert (Str.keepLettersAndHyphens tok1 ≠ "") as Hne by done.
    rewrite !processWord_unfold by done.
    by destruct (findWordData _ _ _) as [[e|]|].
Qed.

Lemma core_decides_shape_witness :
  resultMap shape (lyricizeWord sampleData "(Life-renewing)")
  = resultMap shape (lyricizeWord sampleData "1Life-re2newing!")
  ∧ resultMap shape (lyricizeWord sampleData "(Life-renewing)")
    = Ok (["life"; "re"; "new"; "ing"], [0; 0; 2; 0]%Z, true).
Proof.
  split.
  - apply (core_decides_shape sampleData "(Life-renewing)" "1Life-re2newing!").
    + vm_compute. reflexivity.
    + vm_compute. discriminate.
  - vm_compute. reflexivity.
Defined.

(** *** The keys that the engine reads *)

Lemma toLower_letter_lower c :
  Char.isLetter c = true → Char.isLowerLetter (Char.toLower c) = true.
Proof. by destruct c as [[] [] [] [] [] [] [] []]. Qed.

Lemma toLowerCase_lowerKey s :
  Str.all Char.isLetter s = true → lowerKey (Str.toLowerCase s) = true.
Proof.
  unfold lowerKey, Str.toLowerCase. induction s as [|c s IH]; [done|]. simpl.
  intros [Hc Hs]%andb_true_iff. by rewrite toLower_letter_lower, IH.
Qed.

Lemma all_take p n s : Str.all p s = true → Str.all p (Str.take n s) = true.
Proof.
  revert s; induction n as [|n IH]; intros [|c s]; try done. simpl.
  intros [Hc Hs]%andb_true_iff. by rewrite Hc, IH.
Qed.

Lemma lowerKey_sliceNeg cleanWord n :
  lowerKey cleanWord = true → lowerKey (Str.sliceNeg cleanWord n) = true.
Proof.
  unfold lowerKey, Str.sliceNeg. intros H. destruct n; [done|]. by apply all_take.
Qed.

Lemma suffixes_replace_nothing : Forall (λ rule, replace rule = "") suffixes.
Proof. by repeat constructor. Qed.

Lemma trySuffixes_keys (data data' : gmap string WordData) rules original cleanWord :
  (∀ k, lowerKey k = true → data !! k = data' !! k) →
  Forall (λ rule, replace rule = "") rules →
  lowerKey cleanWord = true →
  trySuffixes data rules original cleanWord = trySuffixes data' rules original cleanWord.
Proof.
  intros Hkeys Hrules Hclean.
  induction Hrules as [|rule rules Hrule _ IH]; [done|]. simpl.
  rewrite Hrule, str_app_nil_r, IH.
  by rewrite (Hkeys _ (lowerKey_sliceNeg cleanWord _ Hclean)).
Qed.

Lemma processWord_keys (data data' : gmap string WordData) original pre sfx :
  (∀ k, lowerKey k = true → data !! k = data' !! k) →
  Str.all Char.isLetter original = true →
  processWord data original pre sfx = processWord data' original pre sfx.
Proof.
  intros Hkeys Hletters. unfold processWord, findWordData.
  pose proof (toLowerCase_lowerKey original Hletters) as Hclean.
  rewrite (Hkeys _ Hclean).
  by rewrite (trySuffixes_keys data data' suffixes _ _ Hkeys suffixes_replace_nothing Hclean).
Qed.

Lemma keepLettersAndHyphens_plain s :
  Str.includesHyphen (Str.keepLettersAndHyphens s) = false →
  Str.all Char.isLetter (Str.keepLettersAndHyphens s) = true.
Proof.
  unfold Str.includesHyphen, Str.keepLettersAndHyphens.
  induction s as [|c s IH]; [done|]. simpl.
  destruct (Char.isLetter c) eqn:Hl, (Char.isHyphen c) eqn:Hh; simpl;
    rewrite ?Hl, ?Hh; simpl; auto; done.
Qed.

Lemma splitHyphen_letters s :
  Str.all (λ c, Char.isLetter c || Char.isHyphen c) s = true →
  Forall (λ piece, Str.all Char.isLetter piece = true) (Str.splitHyphen s).
Proof.
  induction s as [|c s IH]; [by repeat constructor|]. simpl.
  intros [Hc Hs]%andb_true_iff. specialize (IH Hs).
  destruct (Char.isHyphen c) eqn:Hh; [by constructor|].
  rewrite orb_false_r in Hc.
  destruct (Str.splitHyphen s) as [|t ts].
  - constructor; [|done]. simpl. by rewrite Hc.
  - inversion IH; subst. constructor; [|done]. simpl. by rewrite Hc.
Qed.

Lemma keepLettersAndHyphens_all s :
  Str.all (λ c, Char.isLetter c || Char.isHyphen c) (Str.keepLettersAndHyphens s) = true.
Proof.
  unfold Str.keepLettersAndHyphens. induction s as [|c s IH]; [done|]. simpl.
  destruct (Char.isLetter c || Char.isHyphen c) eqn:E; [|done]. simpl. by rewrite E.
Qed.

Lemma partsOf_letters s :
  Forall (λ part, Str.all Char.isLetter part = true)
    (partsOf (Str.keepLettersAndHyphens s)).
Proof.
  unfold partsOf. apply Forall_forall. intros part Hin%list_elem_of_In.
  apply filter_In in Hin as [Hin _].
  pose proof (splitHyphen_letters _ (keepLettersAndHyphens_all s)) as Hall.
  by apply (proj1 (Forall_forall _ _) Hall), list_elem_of_In.
Qed.

Lemma mapResult_ext {A B} (f g : A → result B) xs :
  Forall (λ x, f x = g x) xs → mapResult f xs = mapResult g xs.
Proof. induction 1 as [|x xs Hx _ IH]; [done|]. simpl. by rewrite Hx, IH. Qed.

Lemma lyricizeWord_keys (data data' : gmap string WordData) originalWord :
  (∀ k, lowerKey k = true → data !! k = data' !! k) →
  lyricizeWord data originalWord = lyricizeWord data' originalWord.
Proof.
  intros Hkeys.
  destruct (Str.isEmpty (Str.keepLettersAndHyphens originalWord)) eqn:Ecore.
  { unfold lyricizeWord. by rewrite Ecore. }
  apply str_isEmpty_false in Ecore. rewrite !lyricizeWord_unfold by done.
  destruct (Str.includesHyphen (Str.keepLettersAndHyphens originalWord)) eqn:Ehyphen.
  - rewrite (mapResult_ext (λ part, processWord data part "" "")
               (λ part, processWord data' part "" "")); [done|].
    eapply Forall_impl; [apply partsOf_letters|].
    intros part Hpart. by apply processWord_keys.
  - apply processWord_keys; [done|]. by apply keepLettersAndHyphens_plain.
Qed.

(** X2: the engine reads the dictionary only at keys made of lowercase
    letters: two dictionaries that agree on those keys give the same
    result on every text.  An entry filed under a key with a hyphen, an
    uppercase letter or any other character is never used. *)
Theorem only_lowercase_keys_matter (data data' : gmap string WordData) (lyrics : string) :
  (∀ k, Str.all Char.isLowerLetter k = true → data !! k = data' !! k) →
  lyricize data lyrics = lyricize data' lyrics.
Proof.
  intros Hkeys. unfold lyricize. apply mapResult_ext, Forall_forall.
  intros tok _. by apply lyricizeWord_keys.
Qed.

Lemma only_lowercase_keys_matter_witness :
  lyricize (<["life-renewing" := entry ["x"] [1%Z]]> sampleData) "Life-renewing songs"
  = lyricize sampleData "Life-renewing songs".
Proof.
  apply only_lowercase_keys_matter. intros k Hk.
  apply lookup_insert_ne. intros <-. vm_compute in Hk. discriminate Hk.
Defined.

(** *** The case of the token *)

Lemma rebuild_shape rule e original1 original2 cleanWord :
  resultMap shape (rebuild rule e original1 cleanWord)
  = resultMap shape (rebuild rule e original2 cleanWord).
Proof. unfold rebuild. by repeat case_match. Qed.

Lemma trySuffixes_shape (data : gmap string WordData) rules original1 original2 cleanWord :
  resultMap (option_map shape) (trySuffixes data rules original1 cleanWord)
  = resultMap (option_map shape) (trySuffixes data rules original2 cleanWord).
Proof.
  induction rules as [|rule rules IH]; [done|]. simpl.
  destruct (Str.endsWith cleanWord (suffix rule)); [|done].
  destruct (data !! _) as [e|]; [|done].
  pose proof (rebuild_shape rule e original1 original2 cleanWord) as H.
  destruct (rebuild rule e original1 cleanWord), (rebuild rule e original2 cleanWord);
    simpl in *; congruence.
Qed.

Lemma findWordData_shape (data : gmap string WordData) original1 original2 cleanWord :
  resultMap (option_map shape) (findWordData data original1 cleanWord)
  = resultMap (option_map shape) (findWordData data original2 cleanWord).
Proof.
  unfold findWordData. destruct (data !! cleanWord); [done|]. apply trySuffixes_shape.
Qed.

Lemma processWord_case (data : gmap string WordData) original1 original2 pre1 sfx1 pre2 sfx2 :
  original1 ≠ "" →
  Str.toLowerCase original1 = Str.toLowerCase original2 →
  resultMap caseView (processWord data original1 pre1 sfx1)
  = resultMap caseView (processWord data original2 pre2 sfx2).
Proof.
  intros Hne Hlower.
  assert (original2 ≠ "") as Hne2.
  { intros ->. by apply str_map_eq_nil in Hlower. }
  rewrite !processWord_unfold by done. rewrite <- Hlower.
  pose proof (findWordData_shape data original1 original2 (Str.toLowerCase original1)) as H.
  destruct (findWordData data original1 _) as [[e1|]|],
           (findWordData data original2 _) as [[e2|]|]; simpl in *; try congruence.
  - injection H as Hsyl Hstr _. unfold caseView, shapeLower, knownSyllables. simpl.
    by rewrite Hsyl, Hstr.
  - unfold caseView, shapeLower, knownSyllables. simpl. by rewrite Hlower.
Qed.

Lemma toLower_isLetter c : Char.isLetter (Char.toLower c) = Char.isLetter c.
Proof. by destruct c as [[] [] [] [] [] [] [] []]. Qed.

Lemma toLower_isHyphen c : Char.isHyphen (Char.toLower c) = Char.isHyphen c.
Proof. by destruct c as [[] [] [] [] [] [] [] []]. Qed.

Lemma keepLettersAndHyphens_lower s :
  Str.keepLettersAndHyphens (Str.toLowerCase s)
  = Str.toLowerCase (Str.keepLettersAndHyphens s).
Proof.
  unfold Str.keepLettersAndHyphens, Str.toLowerCase.
  induction s as [|c s IH]; [done|]. simpl.
  rewrite toLower_isLetter, toLower_isHyphen, IH.
  by destruct (Char.isLetter c || Char.isHyphen c).
Qed.

Lemma includesHyphen_lower s :
  Str.includesHyphen (Str.toLowerCase s) = Str.includesHyphen s.
Proof.
  unfold Str.includesHyphen, Str.toLowerCase.
  induction s as [|c s IH]; [done|]. simpl. by rewrite toLower_isHyphen, IH.
Qed.

Lemma splitHyphen_lower s :
  Str.splitHyphen (Str.toLowerCase s) = List.map Str.toLowerCase (Str.splitHyphen s).
Proof.
  unfold Str.toLowerCase. induction s as [|c s IH]; [done|]. simpl.
  rewrite toLower_isHyphen, IH. destruct (Char.isHyphen c); [done|].
  by destruct (Str.splitHyphen s).
Qed.

Lemma partsOf_lower s : partsOf (Str.toLowerCase s) = List.map Str.toLowerCase (partsOf s).
Proof.
  unfold partsOf. rewrite splitHyphen_lower.
  induction (Str.splitHyphen s) as [|t ts IH]; [done|]. simpl.
  rewrite IH. by destruct t.
Qed.

Lemma parts_case (data : gmap string WordData) parts1 parts2 :
  Forall (λ part, part ≠ "") parts1 →
  List.map Str.toLowerCase parts1 = List.map Str.toLowerCase parts2 →
  resultMap (List.map caseView) (mapResult (λ part, processWord data part "" "") parts1)
  = resultMap (List.map caseView) (mapResult (λ part, processWord data part "" "") parts2).
Proof.
  intros Hne. revert parts2.
  induction Hne as [|p1 parts1 Hp1 _ IH]; intros [|p2 parts2] Hmap; try done.
  simpl in Hmap. injection Hmap as Hp Hrest. specialize (IH _ Hrest). simpl.
  pose proof (processWord_case data p1 p2 "" "" "" "" Hp1 Hp) as Hhead.
  destruct (processWord data p1 "" ""), (processWord data p2 "" "");
    simpl in *; try congruence.
  destruct (mapResult _ parts1), (mapResult _ parts2); simpl in *; congruence.
Qed.

Lemma compound_caseView (rs1 rs2 : list WordData) h1 h2 :
  List.map caseView rs1 = List.map caseView rs2 →
  caseView (mkWordData (List.concat (List.map syllables rs1)) h1
              (List.concat (List.map stresses rs1)) (forallb isKnown rs1))
  = caseView (mkWordData (List.concat (List.map syllables rs2)) h2
                (List.concat (List.map stresses rs2)) (forallb isKnown rs2)).
Proof.
  unfold caseView, shapeLower, knownSyllables. simpl. revert rs2.
  induction rs1 as [|r1 rs1 IH]; intros [|r2 rs2] Hmap; try done.
  simpl in Hmap. injection Hmap as Hsyl Hstr Hknown Hks Hrest.
  specialize (IH _ Hrest). injection IH as IHsyl IHstr IHknown IHks.
  simpl. rewrite !map_app, Hsyl, IHsyl, Hstr, IHstr, Hknown, IHknown.
  f_equal. rewrite Hknown in Hks. rewrite IHknown in IHks. revert Hks IHks.
  destruct (isKnown r2); simpl; [|done].
  destruct (forallb isKnown rs2); [|done].
  by intros [= ->] [= ->].
Qed.

(** X3: with a dictionary that has an entry under ["constructor"], the
    case of a token changes neither its stresses nor whether it is known,
    and changes its syllables at most in their case; the syllables of a
    known token do not change at all.  Two tokens that are equal once
    their ASCII letters are lowercased either both throw or give records
    that agree in this way. *)
Theorem case_does_not_matter (data : gmap string WordData) (tok1 tok2 : string) :
  shadowsInherited data →
  Str.toLowerCase tok1 = Str.toLowerCase tok2 →
  resultMap caseView (lyricizeWord data tok1) = resultMap caseView (lyricizeWord data tok2).
Proof.
  intros _ Hlower.
  assert (Str.toLowerCase (Str.keepLettersAndHyphens tok1)
          = Str.toLowerCase (Str.keepLettersAndHyphens tok2)) as Hcore.
  { by rewrite <- !keepLettersAndHyphens_lower, Hlower. }
  destruct (Str.isEmpty (Str.keepLettersAndHyphens tok1)) eqn:E1.
  { apply str_isEmpty_true in E1. rewrite E1 in Hcore. symmetry in Hcore.
    apply str_map_eq_nil in Hcore. unfold lyricizeWord. rewrite E1, Hcore.
    destruct tok1 as [|c1 t1], tok2 as [|c2 t2]; try done.
    cbn [Str.isEmpty resultMap]. unfold caseView, shapeLower, knownSyllables.
    cbn [syllables stresses isKnown List.map]. by rewrite Hlower. }
  apply str_isEmpty_false in E1.
  assert (Str.keepLettersAndHyphens tok2 ≠ "") as E2.
  { intros H. rewrite H in Hcore. by apply str_map_eq_nil in Hcore. }
  rewrite !lyricizeWord_unfold by done.
  rewrite <- (includesHyphen_lower (Str.keepLettersAndHyphens tok1)),
          <- (includesHyphen_lower (Str.keepLettersAndHyphens tok2)), Hcore.
  destruct (Str.includesHyphen _).
  - pose proof (parts_case data (partsOf (Str.keepLettersAndHyphens tok1))
                  (partsOf (Str.keepLettersAndHyphens tok2))
                  (partsOf_nonempty _)) as H.
    rewrite <- !partsOf_lower, Hcore in H. specialize (H eq_refl).
    destruct (mapResult _ (partsOf (Str.keepLettersAndHyphens tok1))) as [rs1|],
             (mapResult _ (partsOf (Str.keepLettersAndHyphens tok2))) as [rs2|];
      simpl in *; try congruence.
    injection H as H. f_equal. by apply compound_caseView.
  - by apply processWord_case.
Qed.

Lemma case_does_not_matter_witness :
  resultMap caseView (lyricizeWord safeData "CONSTRUCTOR-Xyz!")
  = resultMap caseView (lyricizeWord safeData "constructor-xYZ!")
  ∧ resultMap caseView (lyricizeWord safeData "Translated")
    = Ok ((["trans"; "lat"; "ed"], [0; 0; 0]%Z, true), Some ["trans"; "lat"; "ed"]).
Proof.
  split.
  - apply (case_does_not_matter safeData "CONSTRUCTOR-Xyz!" "constructor-xYZ!").
    + exact safeData_shadows.
    + vm_compute. reflexivity.
  - vm_compute. reflexivity.
Defined.

(** *** Where the stresses come from *)

Lemma list_to_map_Forall (Q : WordData → Prop) (l : list (string * WordData)) :
  Forall (λ kv, Q kv.2) l →
  ∀ k e, (list_to_map l : gmap string WordData) !! k = Some e → Q e.
Proof.
  intros Hl k e Hk%elem_of_list_to_map_2.
  by apply (proj1 (Forall_forall _ _) Hl (k, e)).
Qed.

(** A property of the entries of [safeData], read off its entries. *)
Lemma safeData_Forall (Q : WordData → Prop) :
  Q (entry ["con"; "struct"; "or"] [0; 2; 0]%Z) →
  Forall (λ kv : string * WordData, Q kv.2)
    [ ("hello", entry ["hel"; "lo"] [0; 2]%Z);
      ("song", entry ["song"] [0]%Z);
      ("sing", entry ["sing"] [2]%Z);
      ("singe", entry ["singe"] [0]%Z);
      ("translate", entry ["trans"; "late"] [0; 0]%Z);
      ("bright", entry ["bright"] [2]%Z);
      ("life", entry ["life"] [0]%Z);
      ("renew", entry ["re"; "new"] [0; 2]%Z);
      ("pre", entry ["pre"] [0]%Z);
      ("post", entry ["post"] [0]%Z) ] →
  ∀ k e, safeData !! k = Some e → Q e.
Proof.
  intros Hconstructor Hrest k e. unfold safeData.
  destruct (decide (k = "constructor")) as [->|Hk].
  - rewrite lookup_insert_eq. by intros [= <-].
  - rewrite lookup_insert_ne by done. by apply list_to_map_Forall.
Qed.

Lemma rebuild_stresses (P : Z → Prop) rule e original cleanWord r :
  P 0%Z → Forall P (stresses e) →
  rebuild rule e original cleanWord = Ok r → Forall P (stresses r).
Proof.
  intros H0 He. unfold rebuild.
  repeat case_match; intros [= <-]; simpl; try done;
    apply Forall_app; split; try done; by repeat constructor.
Qed.

Lemma processWord_stresses (P : Z → Prop) (data : gmap string WordData)
    original pre sfx r :
  P 0%Z → map_Forall (λ _ e, Forall P (stresses e)) data →
  processWord data original pre sfx = Ok r → Forall P (stresses r).
Proof.
  intros H0 Hdata. unfold processWord. case_match.
  { intros [= <-]. by repeat constructor. }
  intros ([e|] & He & [= <-])%bind_Ok; simpl; [|by repeat constructor].
  unfold findWordData in He. destruct (data !! Str.toLowerCase original) as [e'|] eqn:E.
  - injection He as <-. by eapply Hdata.
  - apply trySuffixes_Some in He as (rule & e' & _ & _ & He' & Hr).
    eapply rebuild_stresses; [done| |done]. by eapply Hdata.
Qed.

Lemma lyricizeWord_stresses (P : Z → Prop) (data : gmap string WordData) originalWord r :
  P 0%Z → map_Forall (λ _ e, Forall P (stresses e)) data →
  lyricizeWord data originalWord = Ok r → Forall P (stresses r).
Proof.
  intros H0 Hdata. unfold lyricizeWord.
  repeat case_match; try (intros [= <-]; by repeat constructor).
  - intros (rs & Hrs & [= <-])%bind_Ok. simpl.
    apply mapResult_Forall2 in Hrs.
    induction Hrs as [|part pr parts prs Hpr _ IH]; [constructor|].
    simpl. apply Forall_app. split; [|done]. by eapply processWord_stresses.
  - by apply processWord_stresses.
Qed.

(** X4: with a dictionary that has an entry under ["constructor"], every
    stress that [lyricize] returns is 0 or a stress of some dictionary
    entry: a property that holds of 0 and of every stress of every entry
    holds of every stress of every record.  With entries stressed 0, 1 or
    2, so are the records. *)
Theorem stresses_come_from_dictionary (P : Z → Prop) (data : gmap string WordData)
    (lyrics : string) (records : list WordData) :
  shadowsInherited data →
  P 0%Z →
  (∀ k e, data !! k = Some e → Forall P (stresses e)) →
  lyricize data lyrics = Ok records →
  Forall (λ r, Forall P (stresses r)) records.
Proof.
  intros _ H0 Hdata Hrecords%mapResult_Forall2.
  induction Hrecords as [|tok r toks rs Hr _ IH]; constructor; [|done].
  by eapply lyricizeWord_stresses.
Qed.

Lemma stresses_come_from_dictionary_witness :
  ∃ records,
    lyricize safeData "Singing constructors, xyz!" = Ok records
    ∧ Forall (λ r, Forall (λ z, (0 ≤ z ≤ 2)%Z) (stresses r)) records.
Proof.
  eexists. split; [vm_compute; reflexivity|].
  apply (stresses_come_from_dictionary (λ z, (0 ≤ z ≤ 2)%Z) safeData
           "Singing constructors, xyz!").
  - exact safeData_shadows.
  - lia.
  - apply (safeData_Forall (λ e, Forall (λ z, (0 ≤ z ≤ 2)%Z) (stresses e))).
    + simpl. repeat (apply Forall_cons_2; [lia|]). apply Forall_nil_2.
    + repeat (apply Forall_cons_2;
              [simpl; repeat (apply Forall_cons_2; [lia|]); apply Forall_nil_2|]).
      apply Forall_nil_2.
  - vm_compute. reflexivity.
Defined.

(** *** Records without syllables *)

Lemma rebuild_syllables_nonempty rule e original cleanWord r :
  syllables e ≠ [] → rebuild rule e original cleanWord = Ok r → syllables r ≠ [].
Proof.
  intros He. unfold rebuild.
  repeat case_match; intros [= <-]; simpl; try done;
    by intros []%app_eq_nil.
Qed.

Lemma processWord_syllables_nonempty (data : gmap string WordData) original pre sfx r :
  dictNonEmpty data →
  processWord data original pre sfx = Ok r → syllables r ≠ [].
Proof.
  intros Hdata. unfold processWord. case_match; [by intros [= <-]|].
  intros ([e|] & He & [= <-])%bind_Ok; simpl; [|done].
  unfold findWordData in He. destruct (data !! Str.toLowerCase original) as [e'|] eqn:E.
  - injection He as <-. by eapply Hdata.
  - apply trySuffixes_Some in He as (rule & e' & _ & _ & He' & Hr).
    eapply rebuild_syllables_nonempty; [|done]. by eapply Hdata.
Qed.

Lemma partsOf_nil_inv s : partsOf s = [] → Str.all Char.isHyphen s = true.
Proof.
  unfold partsOf. induction s as [|c s IH]; [done|]. simpl.
  destruct (Char.isHyphen c); [simpl; apply IH|].
  by destruct (Str.splitHyphen s).
Qed.

Lemma keep_hyphens_letterless s :
  Str.all Char.isHyphen (Str.keepLettersAndHyphens s) = true →
  Str.any Char.isLetter s = false.
Proof.
  unfold Str.keepLettersAndHyphens. induction s as [|c s IH]; [done|]. simpl.
  destruct (Char.isLetter c) eqn:Hl; simpl.
  - intros [Hc _]%andb_true_iff. by destruct c as [[] [] [] [] [] [] [] []].
  - destruct (Char.isHyphen c); simpl; [by intros [_ H]%andb_true_iff; apply IH | apply IH].
Qed.

Lemma keep_nil_inv s :
  Str.keepLettersAndHyphens s = "" →
  Str.any Char.isLetter s = false ∧ Str.includesHyphen s = false.
Proof.
  unfold Str.keepLettersAndHyphens, Str.includesHyphen.
  induction s as [|c s IH]; [done|]. simpl.
  destruct (Char.isLetter c), (Char.isHyphen c); simpl; done.
Qed.

Lemma keep_nil s :
  Str.any Char.isLetter s = false → Str.includesHyphen s = false →
  Str.keepLettersAndHyphens s = "".
Proof.
  unfold Str.keepLettersAndHyphens, Str.includesHyphen.
  induction s as [|c s IH]; [done|]. simpl.
  intros [Hl Hs]%orb_false_iff [Hh Hs']%orb_false_iff. rewrite Hl, Hh. simpl. by apply IH.
Qed.

Lemma lyricizeWord_syllables_nonempty (data : gmap string WordData)
    (originalWord : string) (r : WordData) :
  dictNonEmpty data →
  Str.any Char.isLetter originalWord = true →
  lyricizeWord data originalWord = Ok r →
  syllables r ≠ [].
Proof.
  intros Hdata Hletters.
  assert (Str.keepLettersAndHyphens originalWord ≠ "") as Hcore.
  { intros [H _]%keep_nil_inv. congruence. }
  rewrite lyricizeWord_unfold by done. intros Hr Hnil.
  destruct (Str.includesHyphen (Str.keepLettersAndHyphens originalWord)).
  - apply bind_Ok in Hr as (rs & Hrs & [= <-]). simpl in Hnil.
    apply mapResult_Forall2 in Hrs.
    destruct (partsOf (Str.keepLettersAndHyphens originalWord))
      as [|part parts] eqn:Hparts.
    + apply partsOf_nil_inv, keep_hyphens_letterless in Hparts. congruence.
    + inversion Hrs as [|? pr ? prs Hpr _]; subst. simpl in Hnil.
      apply app_eq_nil in Hnil as [Hnil _].
      by apply (processWord_syllables_nonempty data part "" "" pr).
  - by apply (processWord_syllables_nonempty data _ _ _ r Hdata Hr).
Qed.

(** X5: with a dictionary whose entries all have syllables and that has
    an entry under ["constructor"], the record of
    a token has no syllable exactly when the token has no letter and is
    either empty or contains a hyphen: the empty token, and tokens such as
    ["--"] or ["-1-"].  Every token with a letter gets at least one
    syllable, and a token of digits and symbols is its own syllable. *)
Theorem no_syllables_iff (data : gmap string WordData) (originalWord : string)
    (r : WordData) :
  shadowsInherited data →
  dictNonEmpty data →
  lyricizeWord data originalWord = Ok r →
  (syllables r = []
   ↔ Str.any Char.isLetter originalWord = false
     ∧ (originalWord = "" ∨ Str.includesHyphen originalWord = true)).
Proof.
  intros _ Hdata.
  destruct (Str.any Char.isLetter originalWord) eqn:Hletters.
  - intros Hr. split; [|by intros [? _]]. intros Hnil.
    by apply (lyricizeWord_syllables_nonempty data originalWord r) in Hnil.
  - destruct (Str.includesHyphen originalWord) eqn:Hhyphen.
    + rewrite lyricizeWord_compound by (by rewrite includesHyphen_keep).
      rewrite partsOf_letterless by done. intros [= <-]. simpl.
      split; [intros _; split; [done | by right] | done].
    + unfold lyricizeWord. rewrite (keep_nil _ Hletters Hhyphen).
      destruct originalWord as [|c s]; intros [= <-]; simpl.
      * split; [intros _; split; [done | by left] | done].
      * split; [done|]. by intros [_ [|]].
Qed.

Lemma no_syllables_iff_witness :
  ∃ r, lyricizeWord safeData "-1-" = Ok r
       ∧ (syllables r = []
          ↔ Str.any Char.isLetter "-1-" = false
            ∧ ("-1-" = "" ∨ Str.includesHyphen "-1-" = true)).
Proof.
  eexists. split; [vm_compute; reflexivity|].
  apply (no_syllables_iff safeData "-1-").
  - exact safeData_shadows.
  - exact safeData_nonEmpty.
  - vm_compute. reflexivity.
Defined.

(** *** White space *)

Lemma splitSpaces_all_spaces s :
  Str.all Char.isSpace s = true → Str.splitSpaces true s = [""].
Proof.
  induction s as [|c s IH]; [done|]. simpl.
  intros [Hc Hs]%andb_true_iff. rewrite Hc. by apply IH.
Qed.

Lemma splitWhitespace_cons s : ∃ t ts, Str.splitWhitespace s = t :: ts.
Proof.
  unfold Str.splitWhitespace. generalize false.
  induction s as [|c s IH]; intros afterSep; simpl; [by eexists _, _|].
  destruct (Char.isSpace c).
  - destruct afterSep; [apply IH | by eexists _, _].
  - destruct (IH false) as (t & ts & ->). by eexists _, _.
Qed.

(** X6: [lyricize] never returns an empty list.  A text made of white
    space alone gives empty records only: one for the empty text, two for
    any run of white space, whatever its length and whatever the
    dictionary. *)
Theorem lyricize_of_white_space (data : gmap string WordData) (lyrics : string) :
  (∀ records, lyricize data lyrics = Ok records → records ≠ [])
  ∧ (Str.all Char.isSpace lyrics = true →
     lyricize data lyrics
     = Ok (if Str.isEmpty lyrics then [emptyRecord] else [emptyRecord; emptyRecord])).
Proof.
  split.
  - intros records Hrecords%mapResult_Forall2 ->.
    destruct (splitWhitespace_cons lyrics) as (t & ts & Hsplit).
    rewrite Hsplit in Hrecords. inversion Hrecords.
  - intros Hspaces. unfold lyricize, Str.splitWhitespace.
    destruct lyrics as [|c s]; [done|]. simpl in *.
    apply andb_true_iff in Hspaces as [Hc Hs].
    by rewrite Hc, splitSpaces_all_spaces.
Qed.

Lemma lyricize_of_white_space_witness :
  lyricize sampleData "   " = Ok [emptyRecord; emptyRecord]
  ∧ (∃ records, lyricize sampleData " sing " = Ok records ∧ records ≠ []).
Proof.
  destruct (lyricize_of_white_space sampleData "   ") as [_ Hspaces].
  destruct (lyricize_of_white_space sampleData " sing ") as [Hnonempty _].
  split.
  - apply Hspaces. vm_compute. reflexivity.
  - eexists. split; [vm_compute; reflexivity|]. apply Hnonempty.
    vm_compute. reflexivity.
Defined.

Lemma splitSpaces_app afterSep a spaces b :
  (∀ a' c, a = a' +:+ String c "" → Char.isSpace c = false) →
  (a = "" → afterSep = false) →
  spaces ≠ "" → Str.all Char.isSpace spaces = true →
  Str.all Char.isSpace (Str.take 1 b) = false ∨ b = "" →
  Str.splitSpaces afterSep (a +:+ spaces +:+ b)
  = Str.splitSpaces afterSep a ++ Str.splitSpaces false b.
Proof.
  intros Hlast Hflag Hne Hspaces Hb. revert afterSep Hlast Hflag.
  induction a as [|c a IH]; intros afterSep Hlast Hflag.
  - rewrite (Hflag eq_refl), str_app_nil_l.
    apply (splitWhitespace_run "" spaces b); done.
  - rewrite str_app_cons. simpl.
    assert (∀ a' c', a = a' +:+ String c' "" → Char.isSpace c' = false) as Hlast'.
    { intros a' c' ->. by apply (Hlast (String c a') c'). }
    destruct a as [|c0 a0].
    + pose proof (Hlast "" c eq_refl) as Hc. rewrite Hc, str_app_nil_l.
      pose proof (splitWhitespace_run "" spaces b eq_refl Hne Hspaces Hb) as Hrun.
      unfold Str.splitWhitespace in Hrun. rewrite str_app_nil_l in Hrun.
      by rewrite Hrun.
    + destruct (Char.isSpace c).
      * rewrite IH by done. by destruct afterSep.
      * rewrite IH by done.
        assert (∃ t ts, Str.splitSpaces false (String c0 a0) = t :: ts) as (t & ts & ->)
          by apply splitWhitespace_cons.
        done.
Qed.

Lemma mapResult_app {A B} (f : A → result B) xs ys :
  mapResult f (xs ++ ys)
  = (let! a := mapResult f xs in let! b := mapResult f ys in Ok (a ++ b)).
Proof.
  induction xs as [|x xs IH]; simpl.
  - by destruct (mapResult f ys).
  - destruct (f x); [|done]. simpl. rewrite IH.
    destruct (mapResult f xs); [|done]. simpl. by destruct (mapResult f ys).
Qed.

(** X7: lyrics can be processed piece by piece.  When a text is cut at a
    run of white space, the first piece not ending in white space and the
    second not starting with it, the records of the whole are the records
    of the first piece followed by those of the second, and the whole
    throws exactly when a piece does; the length of the run is of no
    effect. *)
Theorem lyricize_piecewise (data : gmap string WordData) (a spaces b : string) :
  (∀ a' c, a = a' +:+ String c "" → Char.isSpace c = false) →
  spaces ≠ "" →
  Str.all Char.isSpace spaces = true →
  Str.all Char.isSpace (Str.take 1 b) = false ∨ b = "" →
  lyricize data (a +:+ spaces +:+ b)
  = (let! first := lyricize data a in
     let! second := lyricize data b in
     Ok (first ++ second)).
Proof.
  intros Hlast Hne Hspaces Hb. unfold lyricize, Str.splitWhitespace.
  rewrite splitSpaces_app by done. apply mapResult_app.
Qed.

Lemma lyricize_piecewise_witness :
  lyricize sampleData "sing brightly,   life-renewing songs"
  = (let! first := lyricize sampleData "sing brightly," in
     let! second := lyricize sampleData "life-renewing songs" in
     Ok (first ++ second)).
Proof.
  apply (lyricize_piecewise sampleData "sing brightly," "   " "life-renewing songs").
  - intros a' c Ha.
    assert (c = ","%char) as ->; [|reflexivity].
    change "sing brightly," with ("sing brightly" +:+ String "," "") in Ha.
    by apply str_app_snoc_inj in Ha as [_ ->].
  - discriminate.
  - vm_compute. reflexivity.
  - left. vm_compute. reflexivity.
Defined.

(** *** Case reconciliation again *)

Lemma toLower_toUpper c : Char.toLower (Char.toUpper c) = Char.toLower c.
Proof. by destruct c as [[] [] [] [] [] [] [] []]. Qed.

Lemma toLowerCase_toUpperCase s :
  Str.toLowerCase (Str.toUpperCase s) = Str.toLowerCase s.
Proof.
  unfold Str.toLowerCase, Str.toUpperCase.
  induction s as [|c s IH]; [done|]. simpl. by rewrite toLower_toUpper, IH.
Qed.

Lemma toLowerCase_capitalize s : Str.toLowerCase (capitalize s) = Str.toLowerCase s.
Proof.
  destruct s as [|c s]; [done|]. rewrite capitalize_cons.
  unfold Str.toLowerCase. simpl. by rewrite toLower_toUpper.
Qed.

Lemma str_length_map f s : String.length (Str.map f s) = String.length s.
Proof. induction s as [|c s IH]; [done|]. simpl. by rewrite IH. Qed.

Lemma toLowerCase_preserveCase original h cleanOriginal :
  Str.toLowerCase (preserveCase original h cleanOriginal) = Str.toLowerCase h.
Proof.
  unfold preserveCase. repeat case_match; try done.
  - apply toLowerCase_toUpperCase.
  - apply toLowerCase_capitalize.
Qed.

Lemma asciiOnly_map_toUpper h : asciiOnly h = true → asciiOnly (Str.toUpperCase h) = true.
Proof.
  unfold asciiOnly, Str.toUpperCase. induction h as [|c h IH]; [done|]. simpl.
  intros [Hc Hh]%andb_true_iff. rewrite IH by done. rewrite andb_true_r.
  revert Hc. by destruct c as [[] [] [] [] [] [] [] []].
Qed.

Lemma asciiOnly_capitalize h : asciiOnly h = true → asciiOnly (capitalize h) = true.
Proof.
  destruct h as [|c h]; [done|]. rewrite capitalize_cons.
  unfold asciiOnly. simpl. intros [Hc ->]%andb_true_iff. rewrite andb_true_r.
  revert Hc. by destruct c as [[] [] [] [] [] [] [] []].
Qed.

(** X8: case reconciliation of an ASCII hyphenated string touches nothing
    but the case of letters: its result is ASCII again, is the hyphenated
    string once both are lowercased, and has the length of the hyphenated
    string, whatever the original and the clean word; and reconciling
    twice is reconciling once. *)
Theorem preserveCase_changes_case_only (original h cleanOriginal : string) :
  asciiOnly h = true →
  asciiOnly (preserveCase original h cleanOriginal) = true
  ∧ Str.toLowerCase (preserveCase original h cleanOriginal) = Str.toLowerCase h
  ∧ String.length (preserveCase original h cleanOriginal) = String.length h
  ∧ preserveCase original (preserveCase original h cleanOriginal) cleanOriginal
    = preserveCase original h cleanOriginal.
Proof.
  intros Hascii. split.
  { unfold preserveCase. repeat case_match; try done.
    - by apply asciiOnly_map_toUpper.
    - by apply asciiOnly_capitalize. }
  split; [apply toLowerCase_preserveCase|]. split; [|apply preserveCase_idemp].
  unfold preserveCase. repeat case_match; try done.
  - apply str_length_map.
  - destruct h as [|c h]; [done|]. by rewrite capitalize_cons.
Qed.

Lemma preserveCase_changes_case_only_witness :
  preserveCase "Songs" "songs" "songs" = "Songs"
  ∧ Str.toLowerCase (preserveCase "HELLO" "hel-lo" "hello") = "hel-lo"
  ∧ String.length (preserveCase "HELLO" "hel-lo" "hello") = 6%nat.
Proof.
  destruct (preserveCase_changes_case_only "HELLO" "hel-lo" "hello")
    as (_ & Hlower & Hlength & _); [vm_compute; reflexivity|].
  split; [vm_compute; reflexivity|]. split; [exact Hlower | exact Hlength].
Defined.

(** *** What the syllables spell *)

Lemma spell_app l1 l2 : spell (l1 ++ l2) = spell l1 +:+ spell l2.
Proof.
  unfold spell. induction l1 as [|x l1 IH]; [done|]. simpl.
  by rewrite IH, str_app_assoc.
Qed.

Lemma spell_singleton x : spell [x] = x.
Proof. unfold spell. simpl. apply str_app_nil_r. Qed.

Lemma str_snoc_inv s : s ≠ "" → ∃ s' c, s = s' +:+ String c "".
Proof.
  induction s as [|c s IH]; [done|]. intros _. destruct s as [|c0 s0].
  - by exists "", c.
  - destruct IH as (s' & c' & ->); [done|]. by exists (String c s'), c'.
Qed.

Lemma str_take_app_length s t : Str.take (String.length s) (s +:+ t) = s.
Proof.
  induction s as [|c s IH]; [by destruct t|]. rewrite str_app_cons. simpl. by rewrite IH.
Qed.

Lemma str_sliceNeg_app p t : t ≠ "" → Str.sliceNeg (p +:+ t) (String.length t) = p.
Proof.
  intros Ht. unfold Str.sliceNeg. destruct t as [|c t]; [done|].
  cbn [String.length]. rewrite str_length_app. cbn [String.length].
  replace (String.length p + S (String.length t) - S (String.length t))%nat
    with (String.length p) by lia.
  apply str_take_app_length.
Qed.

Lemma str_app_inv_tail s1 s2 t : s1 +:+ t = s2 +:+ t → s1 = s2.
Proof.
  intros H. apply (f_equal (Str.take (String.length s1))) in H as H1.
  apply (f_equal String.length) in H as Hlen. rewrite !str_length_app in Hlen.
  rewrite str_take_app_length in H1.
  replace (String.length s1) with (String.length s2) in H1 by lia.
  by rewrite str_take_app_length in H1.
Qed.

(** The word is the key of the rule followed by the rule's suffix. *)
Lemma baseOf_app rule cleanWord :
  replace rule = "" → suffix rule ≠ "" →
  Str.endsWith cleanWord (suffix rule) = true →
  cleanWord = baseOf rule cleanWord +:+ suffix rule.
Proof.
  intros Hreplace Hsuffix [p ->]%str_endsWith_iff. unfold baseOf.
  by rewrite Hreplace, str_app_nil_r, str_sliceNeg_app.
Qed.

Lemma rebuild_spell rule e original cleanWord r :
  rule ∈ suffixes →
  syllables e ≠ [] → Forall (λ syl, syl ≠ "") (syllables e) →
  Str.endsWith cleanWord (suffix rule) = true →
  spell (syllables e) = baseOf rule cleanWord →
  rebuild rule e original cleanWord = Ok r →
  spell (syllables r) = cleanWord
  ∨ (Str.endsWith cleanWord "ed" = false ∧ spell (syllables r) +:+ "d" = cleanWord).
Proof.
  intros Hin Hne Hsyls Hends Hspell.
  destruct (exists_last Hne) as (init & l & Hsyl).
  assert (l ≠ "") as Hl.
  { rewrite Hsyl in Hsyls. apply Forall_app in Hsyls as [_ Hsyls]. by inversion Hsyls. }
  assert (cleanWord = spell (syllables e) +:+ suffix rule) as Hword.
  { rewrite Hspell. apply baseOf_app; [| |done];
      unfold suffixes in Hin;
      repeat (apply elem_of_cons in Hin as [->|Hin]; [done|]);
      by apply elem_of_nil in Hin. }
  unfold suffixes in Hin. unfold rebuild.
  repeat (apply elem_of_cons in Hin as [->|Hin]); [..|by apply elem_of_nil in Hin];
    cbn [suffix syllable replace] in *.
  - change (String.eqb "s" "s") with true. cbv iota. intros [= <-]. left.
    cbn [syllables]. rewrite Hsyl, lastElement_snoc, allButLast_snoc.
    cbn [concatMaybe]. rewrite Hword, Hsyl, !spell_app, !spell_singleton.
    by rewrite str_app_assoc.
  - change (String.eqb "es" "s") with false. change (String.eqb "es" "d") with false.
    cbn [andb Str.isEmpty]. intros [= <-]. left. cbn [syllables].
    by rewrite Hword, spell_app, spell_singleton.
  - change (String.eqb "ed" "s") with false. change (String.eqb "ed" "d") with false.
    cbn [andb Str.isEmpty]. intros [= <-]. left. cbn [syllables].
    by rewrite Hword, spell_app, spell_singleton.
  - change (String.eqb "ing" "s") with false. change (String.eqb "ing" "d") with false.
    cbn [andb Str.isEmpty]. intros [= <-]. left. cbn [syllables].
    by rewrite Hword, spell_app, spell_singleton.
  - change (String.eqb "ly" "s") with false. change (String.eqb "ly" "d") with false.
    cbn [andb Str.isEmpty]. intros [= <-]. left. cbn [syllables].
    by rewrite Hword, spell_app, spell_singleton.
  - change (String.eqb "d" "s") with false. change (String.eqb "d" "d") with true.
    cbn [andb]. destruct (Str.endsWith cleanWord "ed") eqn:Hed.
    + rewrite Hsyl, lastElement_snoc, allButLast_snoc. intros [= <-]. left.
      cbn [syllables]. apply str_endsWith_iff in Hed as [q Hq].
      destruct (str_snoc_inv l Hl) as (l' & c & ->).
      rewrite Hsyl, spell_app, spell_singleton in Hword.
      rewrite Hword in Hq.
      change "ed" with ("e" +:+ "d") in Hq. rewrite <- !str_app_assoc in Hq.
      apply str_app_snoc_inj in Hq as [Hq _].
      apply str_app_snoc_inj in Hq as [Hq ->].
      assert (Str.take (String.length (l' +:+ "e") - 1) (l' +:+ "e") = l') as ->
        by (by apply (str_sliceNeg_app l' "e")).
      rewrite spell_app. unfold spell at 2. cbn [fold_right].
      rewrite Hword, str_app_nil_r, <- !str_app_assoc.
      by rewrite (str_app_assoc _ "e" "d").
    + intros [= <-]. right. split; [done|]. cbn [syllables]. by rewrite Hword.
Qed.

(** X9: when the dictionary has an entry under ["constructor"] and the
    syllables of every entry are non-empty and spell the entry's key, the
    syllables of the record of a token whose core is non-empty and has no
    hyphen spell the lowercased core if the record is known, with one
    exception, and the core itself if it is not.  The exception is the
    [-d] rule on a word that does not end in "ed": the record is the
    base's, and its syllables lack the final "d". *)
Theorem syllables_spell_the_word (data : gmap string WordData) (originalWord : string)
    (r : WordData) :
  let core := Str.keepLettersAndHyphens originalWord in
  shadowsInherited data →
  (∀ k e, data !! k = Some e →
          syllables e ≠ [] ∧ Forall (λ syl, syl ≠ "") (syllables e)
          ∧ spell (syllables e) = k) →
  core ≠ "" →
  Str.includesHyphen core = false →
  lyricizeWord data originalWord = Ok r →
  if isKnown r
  then spell (syllables r) = Str.toLowerCase core
       ∨ (Str.endsWith (Str.toLowerCase core) "ed" = false
          ∧ spell (syllables r) +:+ "d" = Str.toLowerCase core)
  else spell (syllables r) = core.
Proof.
  intros core _ Hdata Hcore Hhyphen.
  rewrite lyricizeWord_plain, processWord_unfold by done. fold core.
  intros ([w|] & Hfound & [= <-])%bind_Ok; cbn [isKnown decorate syllables];
    [|apply spell_singleton].
  unfold findWordData in Hfound.
  destruct (data !! Str.toLowerCase core) as [e|] eqn:Hkey.
  - injection Hfound as <-. left. by apply (Hdata _ _ Hkey).
  - apply trySuffixes_Some in Hfound as (rule & e & Hin & Hends & He & Hr).
    destruct (Hdata _ _ He) as (Hne & Hsyls & Hspell).
    by apply (rebuild_spell rule e core (Str.toLowerCase core) w).
Qed.

Lemma syllables_spell_the_word_witness :
  (∃ r, lyricizeWord safeData "Translated," = Ok r
        ∧ isKnown r = true ∧ spell (syllables r) = "translated")
  ∧ (∃ r, lyricizeWord safeData "renew'd" = Ok r
          ∧ isKnown r = true ∧ spell (syllables r) +:+ "d" = "renewd").
Proof.
  assert (∀ k e, safeData !! k = Some e →
                 syllables e ≠ [] ∧ Forall (λ syl, syl ≠ "") (syllables e)
                 ∧ spell (syllables e) = k) as Hdata.
  { intros k e. unfold safeData.
    destruct (decide (k = "constructor")) as [->|Hne].
    - rewrite lookup_insert_eq. intros [= <-].
      split; [done|]. split; [|reflexivity].
      repeat (apply Forall_cons_2; [done|]). apply Forall_nil_2.
    - rewrite lookup_insert_ne by done. intros Hk%elem_of_list_to_map_2.
      repeat (apply elem_of_cons in Hk as [Hk|Hk];
              [injection Hk as -> ->; split; [done|]; split; [|reflexivity];
               repeat (apply Forall_cons_2; [done|]); apply Forall_nil_2|]).
      by apply elem_of_nil in Hk. }
  split.
  - exists (mkWordData ["trans"; "lat"; "ed"] "Trans-lat-ed," [0; 0; 0]%Z true).
    split; [vm_compute; reflexivity|]. split; [reflexivity|].
    pose proof (syllables_spell_the_word safeData "Translated,"
      (mkWordData ["trans"; "lat"; "ed"] "Trans-lat-ed," [0; 0; 0]%Z true)
      safeData_shadows Hdata) as H.
    cbv zeta in H.
    destruct H as [H|[Hed _]]; [by vm_compute | by vm_compute | by vm_compute
                                | exact H | by vm_compute in Hed].
  - exists (mkWordData ["re"; "new"] "re-new" [0; 2]%Z true).
    split; [vm_compute; reflexivity|]. split; [reflexivity|].
    pose proof (syllables_spell_the_word safeData "renew'd"
      (mkWordData ["re"; "new"] "re-new" [0; 2]%Z true) safeData_shadows Hdata) as H.
    cbv zeta in H.
    destruct H as [H|[_ H]]; [by vm_compute | by vm_compute | by vm_compute
                              | by vm_compute in H | exact H].
Defined.

(** *** The hyphenated form and the syllables *)

Lemma join_cons x (l : list string) :
  l ≠ [] → Str.joinHyphen (x :: l) = x +:+ "-" +:+ Str.joinHyphen l.
Proof. by destruct l. Qed.

Lemma join_singleton x : Str.joinHyphen [x] = x.
Proof. reflexivity. Qed.

Lemma join_app (l1 l2 : list string) :
  l1 ≠ [] → l2 ≠ [] →
  Str.joinHyphen (l1 ++ l2) = Str.joinHyphen l1 +:+ "-" +:+ Str.joinHyphen l2.
Proof.
  intros Hl1 Hl2. induction l1 as [|x l1 IH]; [done|].
  destruct l1 as [|y l1].
  - simpl app. by rewrite join_cons.
  - rewrite <- app_comm_cons, !join_cons by done.
    rewrite IH by done. by rewrite !str_app_assoc.
Qed.

Lemma join_snoc_append (init : list string) l t :
  Str.joinHyphen (init ++ [l +:+ t]) = Str.joinHyphen (init ++ [l]) +:+ t.
Proof.
  destruct init as [|x init]; [done|].
  rewrite !(join_app (x :: init)) by done.
  by rewrite !join_singleton, !str_app_assoc.
Qed.

Lemma join_dropLast (init : list string) l :
  l ≠ "" →
  Str.sliceNeg (Str.joinHyphen (init ++ [l])) 1
  = Str.joinHyphen (init ++ [Str.sliceNeg l 1]).
Proof.
  intros (l' & c & ->)%str_snoc_inv.
  rewrite join_snoc_append.
  change 1%nat with (String.length (String c "")).
  by rewrite (str_sliceNeg_app l' (String c "")),
             (str_sliceNeg_app (Str.joinHyphen (init ++ [l'])) (String c "")).
Qed.

Lemma toLowerCase_app s t :
  Str.toLowerCase (s +:+ t) = Str.toLowerCase s +:+ Str.toLowerCase t.
Proof.
  unfold Str.toLowerCase. induction s as [|c s IH]; [done|].
  rewrite str_app_cons. simpl. by rewrite IH.
Qed.

Lemma toLowerCase_join (l : list string) :
  Str.toLowerCase (Str.joinHyphen l) = Str.joinHyphen (List.map Str.toLowerCase l).
Proof.
  induction l as [|x l IH]; [done|]. destruct l as [|y l]; [done|].
  rewrite join_cons by done. cbn [List.map].
  rewrite (join_cons (Str.toLowerCase x)) by done.
  rewrite !toLowerCase_app, IH. reflexivity.
Qed.

Lemma join_concat (ls : list (list string)) :
  Forall (λ l, l ≠ []) ls →
  Str.joinHyphen (List.map Str.joinHyphen ls) = Str.joinHyphen (List.concat ls).
Proof.
  induction 1 as [|l ls Hl Hls IH]; [done|].
  destruct ls as [|l' ls].
  - simpl. by rewrite app_nil_r.
  - cbn [List.map]. rewrite (join_cons (Str.joinHyphen l)) by done.
    cbn [List.map] in IH. rewrite IH.
    cbn [List.concat]. rewrite (join_app l); [done|done|].
    inversion Hls; subst. by destruct l'.
Qed.

(** An entry as [parseForm] makes them: its hyphenated form is its
    syllables joined, and it has syllables, none of them empty. *)
Lemma rebuild_join rule e original cleanWord r :
  syllables e ≠ [] → Forall (λ syl, syl ≠ "") (syllables e) →
  hyphenated e = Str.joinHyphen (syllables e) →
  rebuild rule e original cleanWord = Ok r →
  hyphenated r = preserveCase original (Str.joinHyphen (syllables r)) cleanWord.
Proof.
  intros Hne Hsyls Hjoin.
  destruct (exists_last Hne) as (init & l & Hsyl).
  assert (l ≠ "") as Hl.
  { rewrite Hsyl in Hsyls. apply Forall_app in Hsyls as [_ Hsyls]. by inversion Hsyls. }
  unfold rebuild. rewrite Hjoin, Hsyl, lastElement_snoc, allButLast_snoc.
  repeat case_match; intros [= <-]; cbn [hyphenated syllables concatMaybe]; try done.
  - by rewrite join_snoc_append.
  - pose proof (join_dropLast init l Hl) as Hdrop. unfold Str.sliceNeg in Hdrop.
    rewrite Hdrop, (cons_middle _ init ["ed"]), app_assoc.
    rewrite (join_app (init ++ [_]) ["ed"]); [done| |done].
    by intros []%app_eq_nil.
Qed.

Lemma processWord_join (data : gmap string WordData) original pre sfx r :
  (∀ k e, data !! k = Some e →
          syllables e ≠ [] ∧ Forall (λ syl, syl ≠ "") (syllables e)
          ∧ hyphenated e = Str.joinHyphen (syllables e)) →
  original ≠ "" →
  processWord data original pre sfx = Ok r →
  ∃ mid, hyphenated r = pre +:+ mid +:+ sfx
         ∧ Str.toLowerCase mid = Str.toLowerCase (Str.joinHyphen (syllables r)).
Proof.
  intros Hdata Hne. rewrite processWord_unfold by done.
  intros ([w|] & Hfound & [= <-])%bind_Ok; cbn [decorate hyphenated syllables];
    [|by exists original].
  eexists. split; [done|]. rewrite toLowerCase_preserveCase.
  unfold findWordData in Hfound.
  destruct (data !! Str.toLowerCase original) as [e|] eqn:Hkey.
  - injection Hfound as <-. destruct (Hdata _ _ Hkey) as (_ & _ & ->). done.
  - apply trySuffixes_Some in Hfound as (rule & e & _ & _ & He & Hr).
    destruct (Hdata _ _ He) as (Hsyl & Hsyls & Hjoin).
    rewrite (rebuild_join rule e original _ w Hsyl Hsyls Hjoin Hr).
    apply toLowerCase_preserveCase.
Qed.

Lemma parts_join (data : gmap string WordData) parts partResults :
  (∀ k e, data !! k = Some e →
          syllables e ≠ [] ∧ Forall (λ syl, syl ≠ "") (syllables e)
          ∧ hyphenated e = Str.joinHyphen (syllables e)) →
  Forall (λ part, part ≠ "") parts →
  Forall2 (λ part pr, processWord data part "" "" = Ok pr) parts partResults →
  List.map Str.toLowerCase (List.map hyphenated partResults)
  = List.map Str.joinHyphen
      (List.map (λ pr, List.map Str.toLowerCase (syllables pr)) partResults)
  ∧ Forall (λ l, l ≠ [])
      (List.map (λ pr, List.map Str.toLowerCase (syllables pr)) partResults).
Proof.
  intros Hdata Hparts Hrs.
  assert (dictNonEmpty data) as Hne.
  { intros k e Hk. by destruct (Hdata k e Hk). }
  induction Hrs as [|part pr parts prs Hpr _ IH]; [done|].
  inversion Hparts; subst. destruct IH as [IHmap IHne]; [done|].
  destruct (processWord_join data part "" "" pr Hdata) as (mid & Hmid & Hlower);
    [done|done|].
  rewrite str_app_nil_l, str_app_nil_r in Hmid. simpl. split.
  - by rewrite IHmap, Hmid, Hlower, toLowerCase_join.
  - constructor; [|done]. intros Hnil%map_eq_nil.
    by apply (processWord_syllables_nonempty data part "" "" pr).
Qed.

Lemma map_concat_map {A B C} (f : B → C) (g : A → list B) (l : list A) :
  List.map f (List.concat (List.map g l))
  = List.concat (List.map (λ x, List.map f (g x)) l).
Proof. induction l as [|x l IH]; [done|]. simpl. by rewrite map_app, IH. Qed.

Lemma lyricizeWord_join (data : gmap string WordData) (originalWord : string)
    (r : WordData) :
  (∀ k e, data !! k = Some e →
          syllables e ≠ [] ∧ Forall (λ syl, syl ≠ "") (syllables e)
          ∧ hyphenated e = Str.joinHyphen (syllables e)) →
  Str.keepLettersAndHyphens originalWord ≠ "" →
  lyricizeWord data originalWord = Ok r →
  ∃ mid,
    hyphenated r
    = Str.matchLeadingNonLetters originalWord +:+ mid
      +:+ Str.matchTrailingNonLetters originalWord
    ∧ Str.toLowerCase mid = Str.toLowerCase (Str.joinHyphen (syllables r)).
Proof.
  intros Hdata Hcore. rewrite lyricizeWord_unfold by done.
  destruct (Str.includesHyphen (Str.keepLettersAndHyphens originalWord)).
  - intros (rs & Hrs & [= <-])%bind_Ok. cbn [hyphenated syllables].
    eexists. split; [done|]. rewrite toLowerCase_preserveCase.
    apply mapResult_Forall2 in Hrs.
    destruct (parts_join data _ rs Hdata (partsOf_nonempty _) Hrs) as [Hmap Hne].
    rewrite !toLowerCase_join, Hmap, join_concat by done.
    by rewrite map_concat_map.
  - by apply processWord_join.
Qed.

(** X10: with entries as the build script makes them (syllables of
    lowercase letters, at least one and none empty, the hyphenated form
    being the syllables joined by hyphens), one of them under
    ["constructor"], the rendering of every token with a non-empty core
    shows the syllables of its record: between the token's prefix and
    suffix stands, up to the case of letters, the record's syllables
    joined by hyphens.  This covers known and unknown words and
    compounds. *)
Theorem hyphenated_shows_the_syllables (data : gmap string WordData)
    (originalWord : string) (r : WordData) :
  shadowsInherited data →
  (∀ k e, data !! k = Some e →
          syllables e ≠ []
          ∧ Forall (λ syl, syl ≠ "" ∧ Str.all Char.isLowerLetter syl = true)
              (syllables e)
          ∧ hyphenated e = Str.joinHyphen (syllables e)) →
  Str.keepLettersAndHyphens originalWord ≠ "" →
  lyricizeWord data originalWord = Ok r →
  ∃ mid,
    hyphenated r
    = Str.matchLeadingNonLetters originalWord +:+ mid
      +:+ Str.matchTrailingNonLetters originalWord
    ∧ Str.toLowerCase mid = Str.toLowerCase (Str.joinHyphen (syllables r)).
Proof.
  intros _ Hdata. apply lyricizeWord_join.
  intros k e Hk. destruct (Hdata k e Hk) as (Hne & Hsyls & Hjoin).
  split; [done|]. split; [|done].
  eapply Forall_impl; [exact Hsyls|]. by intros syl [? _].
Qed.

Lemma hyphenated_shows_the_syllables_witness :
  ∃ r mid,
    lyricizeWord safeData "'Life-Constructors!'" = Ok r
    ∧ hyphenated r = "'" +:+ mid +:+ "!'"
    ∧ Str.toLowerCase mid = Str.toLowerCase (Str.joinHyphen (syllables r)).
Proof.
  assert (lyricizeWord safeData "'Life-Constructors!'"
          = Ok (mkWordData ["life"; "con"; "struct"; "ors"] "'Life-Con-struct-ors!'"
                  [0; 0; 2; 0]%Z true)) as Hr by (by vm_compute).
  destruct (hyphenated_shows_the_syllables safeData "'Life-Constructors!'"
              (mkWordData ["life"; "con"; "struct"; "ors"] "'Life-Con-struct-ors!'"
                 [0; 0; 2; 0]%Z true)) as (mid & Hmid & Hlower).
  - exact safeData_shadows.
  - apply (safeData_Forall
             (λ e, syllables e ≠ []
                   ∧ Forall (λ syl, syl ≠ "" ∧ Str.all Char.isLowerLetter syl = true)
                       (syllables e)
                   ∧ hyphenated e = Str.joinHyphen (syllables e))).
    + split; [done|]. split; [|reflexivity].
      repeat (apply Forall_cons_2; [by vm_compute|]). apply Forall_nil_2.
    + repeat (apply Forall_cons_2;
              [split; [done|]; split; [|reflexivity];
               repeat (apply Forall_cons_2; [by vm_compute|]); apply Forall_nil_2|]).
      apply Forall_nil_2.
  - by vm_compute.
  - exact Hr.
  - eexists _, mid. split; [exact Hr|]. split; [exact Hmid | exact Hlower].
Defined.

(** ** Properties of the dictionary builder *)

(** *** Markers and stresses *)

Lemma normalizeAccent_isMarker c :
  Form.isMarker (Form.normalizeAccent c) = Form.isMarker c.
Proof. by destruct c as [[] [] [] [] [] [] [] []]. Qed.

Lemma str_filter_filter (p q : ascii → bool) s :
  (∀ c, p c = true → q c = true) →
  Str.filter p (Str.filter q s) = Str.filter p s.
Proof.
  intros Hpq. induction s as [|c s IH]; [done|]. simpl.
  destruct (q c) eqn:Hq; simpl.
  - by rewrite IH.
  - destruct (p c) eqn:Hp; [|done]. apply Hpq in Hp. congruence.
Qed.

Lemma str_filter_map_length (p : ascii → bool) (f : ascii → ascii) s :
  (∀ c, p (f c) = p c) →
  String.length (Str.filter p (Str.map f s)) = String.length (Str.filter p s).
Proof.
  intros Hpf. induction s as [|c s IH]; [done|]. simpl. rewrite Hpf.
  destruct (p c); simpl; by rewrite IH.
Qed.

Lemma length_list_ascii_of_string s :
  length (list_ascii_of_string s) = String.length s.
Proof. induction s as [|c s IH]; [done|]. simpl. by rewrite IH. Qed.

Lemma stressOf_range mark : (0 ≤ Form.stressOf mark ≤ 2)%Z.
Proof. unfold Form.stressOf. repeat case_match; lia. Qed.

Lemma padStresses_length stresses n :
  length (Form.padStresses stresses n) = Nat.max (length stresses) n.
Proof. unfold Form.padStresses. rewrite length_app, repeat_length. lia. Qed.

Lemma str_filter_nil_any (p : ascii → bool) s : Str.any p s = false → Str.filter p s = "".
Proof.
  induction s as [|c s IH]; [done|]. simpl.
  intros [Hc Hs]%orb_false_iff. rewrite Hc. by apply IH.
Qed.

Lemma parseForm_length_stresses form flag :
  length (stresses (Form.parseForm form flag))
  = Nat.max (String.length (Str.filter Form.isMarker form))
      (length (syllables (Form.parseForm form flag))).
Proof.
  unfold Form.parseForm. destruct (Str.any Form.isMarker form) eqn:Hmarker.
  - cbn [negb syllables stresses].
    rewrite padStresses_length, length_map, length_list_ascii_of_string.
    rewrite str_filter_filter
      by (intros c Hc; rewrite Hc; apply orb_true_r).
    by rewrite (str_filter_map_length _ _ _ normalizeAccent_isMarker).
  - cbn [negb syllables stresses length]. by rewrite str_filter_nil_any.
Qed.

Lemma parseForm_stress_range form flag :
  Forall (λ z, (0 ≤ z ≤ 2)%Z) (stresses (Form.parseForm form flag)).
Proof.
  unfold Form.parseForm. destruct (Str.any Form.isMarker form).
  - cbn [negb stresses]. unfold Form.padStresses. apply Forall_app. split.
    + apply Forall_forall. intros z (mark & -> & _)%list_elem_of_fmap.
      apply stressOf_range.
    + apply Forall_forall. intros z Hz%list_elem_of_In. apply repeat_spec in Hz. lia.
  - cbn [negb stresses]. by repeat constructor.
Qed.

(** X11: an entry made by [parseForm] has as many stresses as the greater
    of the number of markers in the form and the number of syllables: the
    loop that is to make the lengths match pads and never cuts.  So an
    entry never has fewer stresses than syllables, but it has more when
    the markers outnumber the syllables, as for a form that ends in two
    markers.  Every stress is 0, 1 or 2. *)
Theorem parseForm_stresses (form : string) (flag : bool) :
  let e := Form.parseForm form flag in
  length (stresses e)
  = Nat.max (String.length (Str.filter Form.isMarker form)) (length (syllables e))
  ∧ (length (syllables e) ≤ length (stresses e))%nat
  ∧ Forall (λ z, (0 ≤ z ≤ 2)%Z) (stresses e)
  ∧ length (syllables (Form.parseForm ("a*" +:+ String "034" "") flag)) = 1%nat
  ∧ length (stresses (Form.parseForm ("a*" +:+ String "034" "") flag)) = 2%nat.
Proof.
  intros e. pose proof (parseForm_length_stresses form flag) as Hlen. fold e in Hlen.
  split; [done|]. split; [lia|]. split; [|done]. apply parseForm_stress_range.
Qed.

(** *** Syllables and their joining *)

Lemma all_filter (p : ascii → bool) s : Str.all p (Str.filter p s) = true.
Proof.
  induction s as [|c s IH]; [done|]. simpl.
  destruct (p c) eqn:Hc; [|done]. simpl. by rewrite Hc.
Qed.

Lemma all_map (p q : ascii → bool) (f : ascii → ascii) s :
  (∀ c, p c = true → q (f c) = true) →
  Str.all p s = true → Str.all q (Str.map f s) = true.
Proof.
  intros Hpq. induction s as [|c s IH]; [done|]. simpl.
  intros [Hc Hs]%andb_true_iff. by rewrite (Hpq c Hc), IH.
Qed.

(** The pieces of a split hold the characters of the string that are not
    separators. *)
Lemma splitOn_pieces (sep q : ascii → bool) s :
  Str.all q s = true →
  Forall (λ piece, Str.all (λ c, q c && negb (sep c)) piece = true) (Form.splitOn sep s).
Proof.
  induction s as [|c s IH]; [by repeat constructor|]. simpl.
  intros [Hc Hs]%andb_true_iff. specialize (IH Hs).
  destruct (sep c) eqn:Hsep; [by constructor|].
  destruct (Form.splitOn sep s) as [|t ts].
  - constructor; [|done]. simpl. by rewrite Hc, Hsep.
  - inversion IH; subst. constructor; [|done]. simpl. by rewrite Hc, Hsep.
Qed.

Lemma all_impl (p q : ascii → bool) s :
  (∀ c, p c = true → q c = true) → Str.all p s = true → Str.all q s = true.
Proof.
  intros Hpq. induction s as [|c s IH]; [done|]. simpl.
  intros [Hc Hs]%andb_true_iff. by rewrite (Hpq c Hc), IH.
Qed.

Lemma lower_piece_char c :
  (Char.isLetter c || Form.isMarker c) = true →
  (λ c, Char.isLowerLetter c || Form.isMarker c) (Char.toLower c) = true.
Proof. by destruct c as [[] [] [] [] [] [] [] []]. Qed.

Lemma lowerLetter_not_hyphen c : Char.isLowerLetter c = true → Char.isHyphen c = false.
Proof. by destruct c as [[] [] [] [] [] [] [] []]. Qed.

Lemma marker_free_char c :
  (Char.isLowerLetter c || Form.isMarker c) && negb (Form.isMarker c) = true →
  Char.isLowerLetter c = true.
Proof. by destruct c as [[] [] [] [] [] [] [] []]. Qed.

Lemma plain_lower_char c :
  Form.isMarker c = false → Char.isLetter c || Char.isHyphen c = true →
  Char.isLowerLetter (Char.toLower c) = true.
Proof. by destruct c as [[] [] [] [] [] [] [] []]. Qed.

Lemma any_filter_map (p q : ascii → bool) (f : ascii → ascii) s :
  (∀ c, p (f c) = p c) →
  Str.any p s = false → Str.any p (Str.filter q (Str.map f s)) = false.
Proof.
  intros Hpf. induction s as [|c s IH]; [done|]. simpl.
  intros [Hc Hs]%orb_false_iff. destruct (q (f c)); simpl; [|by apply IH].
  by rewrite Hpf, Hc, IH.
Qed.

Lemma splitHyphen_word s : Str.includesHyphen s = false → Str.splitHyphen s = [s].
Proof.
  unfold Str.includesHyphen. induction s as [|c s IH]; [done|]. simpl.
  intros [Hc Hs]%orb_false_iff. by rewrite Hc, IH.
Qed.

Lemma splitHyphen_app x rest :
  Str.includesHyphen x = false →
  Str.splitHyphen (x +:+ "-" +:+ rest) = x :: Str.splitHyphen rest.
Proof.
  unfold Str.includesHyphen. induction x as [|c x IH]; [done|].
  cbn [Str.any]. intros [Hc Hx]%orb_false_iff. rewrite str_app_cons.
  cbn [Str.splitHyphen]. by rewrite Hc, IH.
Qed.

(** Splitting at hyphens undoes joining by hyphens. *)
Lemma splitHyphen_joinHyphen (l : list string) :
  l ≠ [] → Forall (λ x, Str.includesHyphen x = false) l →
  Str.splitHyphen (Str.joinHyphen l) = l.
Proof.
  intros Hne Hl. induction Hl as [|x l Hx Hl IH]; [done|].
  destruct l as [|y l].
  - by apply splitHyphen_word.
  - rewrite join_cons by done. rewrite splitHyphen_app by done. by rewrite IH.
Qed.

Lemma all_lower_hyphenless s :
  Str.all Char.isLowerLetter s = true → Str.includesHyphen s = false.
Proof.
  unfold Str.includesHyphen. induction s as [|c s IH]; [done|]. simpl.
  intros [Hc Hs]%andb_true_iff. by rewrite (lowerLetter_not_hyphen c Hc), IH.
Qed.

Lemma parseForm_lower form flag :
  Forall (λ syl, Str.all Char.isLowerLetter syl = true)
    (syllables (Form.parseForm form flag)).
Proof.
  unfold Form.parseForm. destruct (Str.any Form.isMarker form) eqn:Hmarker;
    cbn [negb syllables].
  - apply Forall_forall. intros syl Hin%list_elem_of_In.
    apply filter_In in Hin as [Hin _]. apply list_elem_of_In in Hin.
    eapply all_impl; [apply marker_free_char|].
    revert syl Hin. apply Forall_forall, splitOn_pieces.
    eapply all_map; [apply lower_piece_char|]. apply all_filter.
  - constructor; [|done].
    set (kept := Str.filter _ _).
    assert (Str.all (λ c, negb (Form.isMarker c) && (Char.isLetter c || Char.isHyphen c))
              kept = true) as Hkept.
    { unfold kept. clear kept. induction form as [|c form IH]; [done|].
      simpl in *. apply orb_false_iff in Hmarker as [Hc Hform].
      destruct (Char.isLetter (Form.normalizeAccent c)
                || Char.isHyphen (Form.normalizeAccent c)) eqn:E; [|by apply IH].
      simpl. by rewrite E, normalizeAccent_isMarker, Hc, IH. }
    eapply all_map; [|exact Hkept].
    intros c [Hm Hc]%andb_true_iff. apply plain_lower_char; [|done].
    by apply negb_true_iff.
Qed.

(** X12: the syllables of an entry made by [parseForm] consist of
    lowercase letters only, and its hyphenated form is its syllables
    joined by hyphens.  With a marker in the form no syllable is empty and
    the entry is marked known; without one the entry has a single syllable
    and is marked unknown; the flag that the caller passes is of no
    effect.  When the entry has a syllable, splitting its hyphenated form
    at the hyphens gives the syllables back; an entry without syllables,
    as the form ["-"] gives, has the empty hyphenated form, which splits
    into one empty piece. *)
Theorem parseForm_syllables (form : string) (flag : bool) :
  let e := Form.parseForm form flag in
  Forall (λ syl, Str.all Char.isLowerLetter syl = true) (syllables e)
  ∧ hyphenated e = Str.joinHyphen (syllables e)
  ∧ isKnown e = Str.any Form.isMarker form
  ∧ Form.parseForm form (negb flag) = e
  ∧ (Str.any Form.isMarker form = true → Forall (λ syl, syl ≠ "") (syllables e))
  ∧ (Str.any Form.isMarker form = false → length (syllables e) = 1%nat)
  ∧ (syllables e ≠ [] → Str.splitHyphen (hyphenated e) = syllables e)
  ∧ (syllables e = [] → Str.splitHyphen (hyphenated e) = [""])
  ∧ syllables (Form.parseForm "-" flag) = [].
Proof.
  intros e. pose proof (parseForm_lower form flag) as Hlower. fold e in Hlower.
  assert (hyphenated e = Str.joinHyphen (syllables e)) as Hjoin.
  { unfold e, Form.parseForm. by destruct (Str.any Form.isMarker form). }
  split; [done|]. split; [done|]. split.
  { unfold e, Form.parseForm. by destruct (Str.any Form.isMarker form). }
  split; [done|]. split; [|split; [|split; [|split; [|done]]]].
  - intros Hmarker. unfold e, Form.parseForm. rewrite Hmarker. cbn [negb syllables].
    apply Forall_forall. intros syl Hin%list_elem_of_In.
    apply filter_In in Hin as [_ Hsyl]. by apply negb_true_iff, str_isEmpty_false in Hsyl.
  - intros Hmarker. unfold e, Form.parseForm. by rewrite Hmarker.
  - intros Hne. rewrite Hjoin. apply splitHyphen_joinHyphen; [done|].
    eapply Forall_impl; [exact Hlower|]. intros syl. apply all_lower_hyphenless.
  - intros Hnil. by rewrite Hjoin, Hnil.
Qed.

Lemma parseForm_syllables_witness :
  Str.splitHyphen (hyphenated (Form.parseForm ("co*" +:+ String "246" "p`er*ate") true))
  = ["co"; "op"; "er"; "ate"]
  ∧ Forall (λ syl, syl ≠ "")
      (syllables (Form.parseForm ("co*" +:+ String "246" "p`er*ate") true))
  ∧ length (syllables (Form.parseForm "Zool. 12" true)) = 1%nat
  ∧ Str.splitHyphen (hyphenated (Form.parseForm "-" true)) = [""].
Proof.
  destruct (parseForm_syllables ("co*" +:+ String "246" "p`er*ate") true)
    as (_ & _ & _ & _ & Hfull & _ & Hsplit & _).
  destruct (parseForm_syllables "Zool. 12" true) as (_ & _ & _ & _ & _ & Hone & _).
  destruct (parseForm_syllables "-" true) as (_ & _ & _ & _ & _ & _ & _ & Hnone & _).
  split; [|split; [|split]].
  - rewrite Hsplit; [reflexivity|]. vm_compute. discriminate.
  - apply Hfull. vm_compute. reflexivity.
  - apply Hone. vm_compute. reflexivity.
  - apply Hnone. vm_compute. reflexivity.
Defined.

(** *** From the builder to the engine *)

Lemma str_filter_length_any (p : ascii → bool) s :
  String.length (Str.filter p s) = 0%nat → Str.any p s = false.
Proof.
  induction s as [|c s IH]; [done|]. simpl.
  destruct (p c); [done|]. apply IH.
Qed.

(** A balanced entry of [parseForm] has a syllable. *)
Lemma parseForm_balanced_nonempty form flag :
  length (syllables (Form.parseForm form flag))
  = length (stresses (Form.parseForm form flag)) →
  syllables (Form.parseForm form flag) ≠ [].
Proof.
  intros Hbal Hnil. rewrite parseForm_length_stresses, Hnil in Hbal. simpl in Hbal.
  assert (Str.any Form.isMarker form = false) as Hmarker.
  { apply str_filter_length_any. lia. }
  unfold Form.parseForm in Hnil. by rewrite Hmarker in Hnil.
Qed.

(** X13: on a dictionary whose entries are entries of [parseForm] with as
    many stresses as syllables, one of them under ["constructor"],
    [lyricize] never throws, and every record that it returns has as many
    stresses as syllables, each stress being 0, 1 or 2. *)
Theorem built_dictionary_is_safe (data : gmap string WordData) (lyrics : string) :
  shadowsInherited data →
  (∀ k e, data !! k = Some e →
          (∃ form flag, e = Form.parseForm form flag)
          ∧ length (syllables e) = length (stresses e)) →
  ∃ records,
    lyricize data lyrics = Ok records
    ∧ Forall (λ r, length (syllables r) = length (stresses r)
                   ∧ Forall (λ z, (0 ≤ z ≤ 2)%Z) (stresses r)) records.
Proof.
  intros _ Hdata.
  assert (dictNonEmpty data) as Hne.
  { intros k e Hk. destruct (Hdata k e Hk) as [(form & flag & ->) Hbal].
    by apply parseForm_balanced_nonempty. }
  assert (dictBalanced data) as Hbal.
  { intros k e Hk. by destruct (Hdata k e Hk). }
  assert (map_Forall (λ _ e, Forall (λ z, (0 ≤ z ≤ 2)%Z) (stresses e)) data) as Hrange.
  { intros k e Hk. destruct (Hdata k e Hk) as [(form & flag & ->) _].
    apply parseForm_stress_range. }
  unfold lyricize.
  destruct (mapResult_total (lyricizeWord data) (Str.splitWhitespace lyrics))
    as [records Hrecords].
  { apply Forall_forall. intros tok _. by apply lyricizeWord_total. }
  exists records. split; [done|]. apply mapResult_Forall2 in Hrecords.
  induction Hrecords as [|tok r toks rs Hr _ IH]; constructor; [|done]. split.
  - by apply (lyricizeWord_balanced data tok r Hne Hbal).
  - by apply (lyricizeWord_stresses _ data tok r).
Qed.

Lemma builtData_shadows : shadowsInherited builtData.
Proof. eexists. vm_compute. reflexivity. Qed.

Lemma built_dictionary_is_safe_witness :
  ∃ records,
    lyricize builtData "Hello, Godlike CONSTRUCTORS songs!" = Ok records
    ∧ Forall (λ r, length (syllables r) = length (stresses r)
                   ∧ Forall (λ z, (0 ≤ z ≤ 2)%Z) (stresses r)) records.
Proof.
  apply (built_dictionary_is_safe builtData "Hello, Godlike CONSTRUCTORS songs!");
    [exact builtData_shadows|].
  apply (list_to_map_Forall
           (λ e, (∃ form flag, e = Form.parseForm form flag)
                 ∧ length (syllables e) = length (stresses e))).
  repeat (apply Forall_cons_2; [split; [by eexists _, _ | reflexivity]|]).
  apply Forall_nil_2.
Defined.

(** *** Filing an entry *)

Lemma lowerKey_unhyphenated word :
  lowerKey word = true → Str.filter (λ c, negb (Char.isHyphen c)) word = word.
Proof.
  unfold lowerKey. induction word as [|c word IH]; [done|]. simpl.
  intros [Hc Hword]%andb_true_iff.
  by rewrite (lowerLetter_not_hyphen c Hc), IH.
Qed.

Lemma storeEntry_lowerKeys word wordData (data : gmap string WordData) k :
  lowerKey k = true →
  Form.storeEntry word wordData data !! k
  = <[Str.filter (λ c, negb (Char.isHyphen c)) word := wordData]> data !! k.
Proof.
  intros Hk. unfold Form.storeEntry.
  destruct (String.eqb _ word) eqn:E.
  - apply String.eqb_eq in E. by rewrite E.
  - apply String.eqb_neq in E.
    assert (k ≠ word) as Hkw.
    { intros ->. by apply lowerKey_unhyphenated in Hk. }
    destruct (decide (k = Str.filter (λ c, negb (Char.isHyphen c)) word)) as [->|Hku].
    + by rewrite !lookup_insert_eq.
    + by rewrite !lookup_insert_ne.
Qed.

(** X14: the step that files an entry makes it the entry of the headword
    and of the headword without its hyphens, and changes no other key.
    The engine sees the second filing only: on every text it behaves as
    if the entry had been filed under the hyphen-less headword alone. *)
Theorem storeEntry_files_and_reaches (word : string) (wordData : WordData)
    (data : gmap string WordData) :
  let unhyphenated := Str.filter (λ c, negb (Char.isHyphen c)) word in
  Form.storeEntry word wordData data !! word = Some wordData
  ∧ Form.storeEntry word wordData data !! unhyphenated = Some wordData
  ∧ (∀ k, k ≠ word → k ≠ unhyphenated →
          Form.storeEntry word wordData data !! k = data !! k)
  ∧ (∀ lyrics,
       lyricize (Form.storeEntry word wordData data) lyrics
       = lyricize (<[unhyphenated := wordData]> data) lyrics).
Proof.
  intros unhyphenated. unfold Form.storeEntry. fold unhyphenated.
  split; [|split; [|split]].
  - destruct (String.eqb unhyphenated word) eqn:E; [by rewrite lookup_insert_eq|].
    apply String.eqb_neq in E. rewrite lookup_insert_ne by done.
    by rewrite lookup_insert_eq.
  - destruct (String.eqb unhyphenated word) eqn:E; [|by rewrite lookup_insert_eq].
    apply String.eqb_eq in E. by rewrite E, lookup_insert_eq.
  - intros k Hkw Hku.
    destruct (String.eqb unhyphenated word); by rewrite !lookup_insert_ne.
  - intros lyrics. unfold lyricize. apply mapResult_ext, Forall_forall.
    intros tok _. apply lyricizeWord_keys. intros k Hk.
    by apply (storeEntry_lowerKeys word wordData data k).
Qed.

Lemma storeEntry_files_and_reaches_witness :
  Form.storeEntry "god-like" (entry ["god"; "like"] [2; 1]%Z) sampleData !! "hello"
  = sampleData !! "hello"
  ∧ lyricize (Form.storeEntry "god-like" (entry ["god"; "like"] [2; 1]%Z) sampleData)
      "Godlike god-like"
    = lyricize (<["godlike" := entry ["god"; "like"] [2; 1]%Z]> sampleData)
        "Godlike god-like".
Proof.
  destruct (storeEntry_files_and_reaches "god-like" (entry ["god"; "like"] [2; 1]%Z)
              sampleData) as (_ & _ & Hother & Hreach).
  split.
  - apply Hother; discriminate.
  - apply Hreach.
Defined.

(** ** The engine on a dictionary of the builder's making *)

(** *** Splitting the rendering back into syllables *)

Lemma hyphenless_app s t :
  Str.includesHyphen s = false → Str.includesHyphen t = false →
  Str.includesHyphen (s +:+ t) = false.
Proof.
  unfold Str.includesHyphen. intros Hs Ht. induction s as [|c s IH]; [done|].
  rewrite str_app_cons. simpl in *. apply orb_false_iff in Hs as [-> Hs]. by apply IH.
Qed.

Lemma hyphenless_take n s :
  Str.includesHyphen s = false → Str.includesHyphen (Str.take n s) = false.
Proof.
  unfold Str.includesHyphen. revert s; induction n as [|n IH]; intros [|c s]; try done.
  simpl. intros [-> Hs]%orb_false_iff. by apply IH.
Qed.

Lemma suffixes_hyphenless :
  Forall (λ rule, ∀ syl, syllable rule = Some syl → Str.includesHyphen syl = false)
    suffixes.
Proof. repeat constructor; by intros syl [= <-]. Qed.

Lemma rebuild_hyphenless rule e original cleanWord r :
  (∀ syl, syllable rule = Some syl → Str.includesHyphen syl = false) →
  syllables e ≠ [] →
  Forall (λ syl, Str.includesHyphen syl = false) (syllables e) →
  rebuild rule e original cleanWord = Ok r →
  Forall (λ syl, Str.includesHyphen syl = false) (syllables r).
Proof.
  intros Hrule Hne He.
  destruct (exists_last Hne) as (init & l & Hsyl).
  rewrite Hsyl in He. apply Forall_app in He as [Hinit Hl].
  apply Forall_inv in Hl.
  unfold rebuild. rewrite Hsyl, lastElement_snoc, allButLast_snoc.
  repeat case_match; intros [= <-]; cbn [syllables concatMaybe];
    try (apply Forall_app; split; [done|]); try by repeat constructor.
  - repeat constructor. by apply hyphenless_app.
  - repeat constructor. unfold Str.sliceNeg. by apply hyphenless_take.
  - apply Forall_app. split; [by apply Forall_app; split; repeat constructor|].
    repeat constructor. by apply Hrule.
Qed.

Lemma processWord_hyphenless (data : gmap string WordData) original pre sfx r :
  (∀ k e, data !! k = Some e →
          syllables e ≠ []
          ∧ Forall (λ syl, Str.includesHyphen syl = false) (syllables e)) →
  original ≠ "" → Str.includesHyphen original = false →
  processWord data original pre sfx = Ok r →
  Forall (λ syl, Str.includesHyphen syl = false) (syllables r).
Proof.
  intros Hdata Hne Hhyphen. rewrite processWord_unfold by done.
  intros ([w|] & Hfound & [= <-])%bind_Ok; cbn [decorate syllables];
    [|by repeat constructor].
  unfold findWordData in Hfound.
  destruct (data !! Str.toLowerCase original) as [e|] eqn:Hkey.
  - injection Hfound as <-. by destruct (Hdata _ _ Hkey).
  - apply trySuffixes_Some in Hfound as (rule & e & Hrule & _ & He & Hr).
    destruct (Hdata _ _ He) as [Hsyl Hsyls].
    apply (rebuild_hyphenless rule e original (Str.toLowerCase original) w); try done.
    by apply (proj1 (Forall_forall _ _) suffixes_hyphenless rule).
Qed.

Lemma lyricizeWord_hyphenless (data : gmap string WordData) originalWord r :
  (∀ k e, data !! k = Some e →
          syllables e ≠ []
          ∧ Forall (λ syl, Str.includesHyphen syl = false) (syllables e)) →
  Str.keepLettersAndHyphens originalWord ≠ "" →
  lyricizeWord data originalWord = Ok r →
  Forall (λ syl, Str.includesHyphen syl = false) (syllables r).
Proof.
  intros Hdata Hcore. rewrite lyricizeWord_unfold by done.
  destruct (Str.includesHyphen (Str.keepLettersAndHyphens originalWord)) eqn:Hhyphen.
  - intros (rs & Hrs & [= <-])%bind_Ok. cbn [syllables].
    apply mapResult_Forall2 in Hrs.
    assert (Forall (λ part, part ≠ "" ∧ Str.includesHyphen part = false)
              (partsOf (Str.keepLettersAndHyphens originalWord))) as Hparts.
    { apply Forall_forall. intros part Hpart. split.
      - by apply (proj1 (Forall_forall _ _)
                    (partsOf_nonempty (Str.keepLettersAndHyphens originalWord)) part).
      - unfold partsOf in Hpart.
        apply list_elem_of_In, filter_In in Hpart as [Hin%list_elem_of_In _].
        by apply (proj1 (Forall_forall _ _)
                    (splitHyphen_hyphenless (Str.keepLettersAndHyphens originalWord))
                    part). }
    induction Hrs as [|part pr parts prs Hpr _ IH]; [constructor|].
    apply Forall_cons in Hparts as [[Hne Hpart] Hparts]. simpl.
    apply Forall_app. split; [|by apply IH].
    by apply (processWord_hyphenless data part "" "" pr).
  - by apply processWord_hyphenless.
Qed.

(** X15: with entries as the build script makes them (syllables of
    lowercase letters, at least one, none empty, and the hyphenated form
    their join), one of them under ["constructor"], the rendering of a
    token with a letter can be split back into the syllables of its
    record: what stands between the token's prefix and
    suffix, split at its hyphens, gives the syllables one for one, up to
    the case of letters.  So the rendering shows exactly as many pieces as
    the record has syllables and stresses to pair them with. *)
Theorem rendering_splits_into_syllables (data : gmap string WordData)
    (originalWord : string) (r : WordData) :
  shadowsInherited data →
  (∀ k e, data !! k = Some e →
          syllables e ≠ []
          ∧ Forall (λ syl, syl ≠ "" ∧ Str.all Char.isLowerLetter syl = true)
              (syllables e)
          ∧ hyphenated e = Str.joinHyphen (syllables e)) →
  Str.any Char.isLetter originalWord = true →
  lyricizeWord data originalWord = Ok r →
  ∃ mid,
    hyphenated r
    = Str.matchLeadingNonLetters originalWord +:+ mid
      +:+ Str.matchTrailingNonLetters originalWord
    ∧ Str.splitHyphen (Str.toLowerCase mid)
      = List.map Str.toLowerCase (syllables r)
    ∧ length (Str.splitHyphen mid) = length (syllables r).
Proof.
  intros _ Hdata Hletters Hr.
  assert (Str.keepLettersAndHyphens originalWord ≠ "") as Hcore.
  { intros [H _]%keep_nil_inv. congruence. }
  assert (dictNonEmpty data) as Hne.
  { intros k e Hk. by destruct (Hdata k e Hk). }
  destruct (lyricizeWord_join data originalWord r) as (mid & Hmid & Hlower);
    [|done|done|].
  { intros k e Hk. destruct (Hdata k e Hk) as (? & Hsyls & ?).
    split; [done|]. split; [|done].
    eapply Forall_impl; [exact Hsyls|]. by intros syl [? _]. }
  assert (Str.splitHyphen (Str.toLowerCase mid)
          = List.map Str.toLowerCase (syllables r)) as Hsplit.
  { rewrite Hlower, toLowerCase_join. apply splitHyphen_joinHyphen.
    - intros Hnil%map_eq_nil.
      by apply (lyricizeWord_syllables_nonempty data originalWord r).
    - apply Forall_map.
      eapply Forall_impl;
        [apply (lyricizeWord_hyphenless data originalWord r); try done|].
      + intros k e Hk. destruct (Hdata k e Hk) as (? & Hsyls & ?).
        split; [done|]. eapply Forall_impl; [exact Hsyls|].
        intros syl [_ ?]. by apply all_lower_hyphenless.
      + intros syl Hsyl. simpl. by rewrite includesHyphen_lower. }
  exists mid. split; [done|]. split; [done|].
  rewrite splitHyphen_lower in Hsplit.
  apply (f_equal (@length string)) in Hsplit. by rewrite !length_map in Hsplit.
Qed.

Lemma rendering_splits_into_syllables_witness :
  ∃ r mid,
    lyricizeWord builtData "(Godlike-CONSTRUCTORS!)" = Ok r
    ∧ hyphenated r = "(" +:+ mid +:+ "!)"
    ∧ Str.splitHyphen (Str.toLowerCase mid) = List.map Str.toLowerCase (syllables r)
    ∧ length (Str.splitHyphen mid) = length (syllables r).
Proof.
  assert (∃ r, lyricizeWord builtData "(Godlike-CONSTRUCTORS!)" = Ok r) as [r Hr]
    by (eexists; by vm_compute).
  destruct (rendering_splits_into_syllables builtData "(Godlike-CONSTRUCTORS!)" r)
    as (mid & Hmid & Hsplit & Hlen).
  - exact builtData_shadows.
  - apply (list_to_map_Forall
             (λ e, syllables e ≠ []
                   ∧ Forall (λ syl, syl ≠ "" ∧ Str.all Char.isLowerLetter syl = true)
                       (syllables e)
                   ∧ hyphenated e = Str.joinHyphen (syllables e))).
    repeat (apply Forall_cons_2;
            [split; [by vm_compute|]; split; [|by vm_compute];
             vm_compute; repeat (apply Forall_cons_2; [done|]); apply Forall_nil_2|]).
    apply Forall_nil_2.
  - by vm_compute.
  - exact Hr.
  - exists r, mid. split; [exact Hr|]. split; [exact Hmid|]. split; [exact Hsplit | exact Hlen].
Defined.

(** ** Growing the dictionary *)

Lemma dictionaryHit_mono (data data' : gmap string WordData) cleanWord :
  data ⊆ data' → dictionaryHit data cleanWord → dictionaryHit data' cleanWord.
Proof.
  intros Hsub [[e He]|Hrule].
  - left. exists e. by eapply lookup_weaken.
  - right. eapply Exists_impl; [exact Hrule|].
    intros rule [Hends [e He]]. split; [done|]. exists e. by eapply lookup_weaken.
Qed.

Lemma processWord_known_mono (data data' : gmap string WordData) original pre sfx r r' :
  data ⊆ data' →
  processWord data original pre sfx = Ok r →
  processWord data' original pre sfx = Ok r' →
  isKnown r = true → isKnown r' = true.
Proof.
  intros Hsub. destruct (decide (original = "")) as [->|Hne].
  { by intros [= <-] [= <-]. }
  intros Hr Hr' Hknown.
  apply (processWord_isKnown data' original pre sfx r' Hne Hr').
  apply (dictionaryHit_mono data data'); [done|].
  by apply (processWord_isKnown data original pre sfx r Hne Hr).
Qed.

(** X16: adding entries to the dictionary never turns a known word into an
    unknown one.  When every entry of a dictionary is an entry of a larger
    one, a token whose record is known with the smaller dictionary has a
    known record with the larger one, whether it is found directly, through
    a suffix rule or part by part; the syllables may differ, as the larger
    dictionary may find the word by an earlier route. *)
Theorem more_entries_keep_words_known (data data' : gmap string WordData)
    (originalWord : string) (r r' : WordData) :
  data ⊆ data' →
  lyricizeWord data originalWord = Ok r →
  lyricizeWord data' originalWord = Ok r' →
  isKnown r = true → isKnown r' = true.
Proof.
  intros Hsub. unfold lyricizeWord.
  destruct (Str.isEmpty originalWord); [by intros [= <-] [= <-]|].
  destruct (Str.isEmpty (Str.keepLettersAndHyphens originalWord));
    [by intros [= <-] [= <-]|].
  destruct (Str.includesHyphen (Str.keepLettersAndHyphens originalWord));
    [|by apply processWord_known_mono].
  intros (rs & Hrs & [= <-])%bind_Ok (rs' & Hrs' & [= <-])%bind_Ok.
  cbn [isKnown]. apply mapResult_Forall2 in Hrs. apply mapResult_Forall2 in Hrs'.
  revert rs' Hrs'.
  induction Hrs as [|part pr parts prs Hpr _ IH]; intros rs' Hrs';
    inversion Hrs' as [|? pr' ? prs' Hpr' Hprs']; subst; [done|].
  simpl. intros [Hk Hks]%andb_true_iff.
  rewrite (processWord_known_mono data data' part "" "" pr pr') by done.
  by apply IH.
Qed.

Lemma more_entries_keep_words_known_witness :
  ∃ r r',
    lyricizeWord (delete "sing" sampleData) "Hello-songs" = Ok r
    ∧ lyricizeWord sampleData "Hello-songs" = Ok r'
    ∧ isKnown r = true ∧ isKnown r' = true.
Proof.
  assert (∃ r, lyricizeWord (delete "sing" sampleData) "Hello-songs" = Ok r)
    as [r Hr] by (eexists; by vm_compute).
  assert (∃ r', lyricizeWord sampleData "Hello-songs" = Ok r')
    as [r' Hr'] by (eexists; by vm_compute).
  assert (isKnown r = true) as Hknown.
  { revert Hr. vm_compute. by intros [= <-]. }
  exists r, r'. split; [exact Hr|]. split; [exact Hr'|]. split; [exact Hknown|].
  apply (more_entries_keep_words_known (delete "sing" sampleData) sampleData
           "Hello-songs" r r'); [apply delete_subseteq | exact Hr | exact Hr' | exact Hknown].
Defined.
